(** * KYC document viewer: EXIF orientation scanner and render compositor

    A shallow embedding of the orientation / overlay core of
    [dashboard/src/components/DocumentUpload.tsx] (component
    [BoundingBoxVisualizer] and its helpers) and of the highlight wiring in
    the main [App] component; further on, of the upload form, the API
    client, the App's document selection and the document history.

    Conventions of the embedding:
    - an [ArrayBuffer] is a [list byte]; a [DataView] read that falls outside
      the buffer raises [RangeError], modelled by [None];
    - JavaScript numbers that only ever hold integers (offsets, lengths,
      markers, orientation tags, rotation in degrees) are [Z];
    - JavaScript numbers used for geometry are IEEE-754 binary64 values,
      i.e. Rocq's primitive [float];
    - loops are structural recursions; the marker loop carries an explicit
      iteration budget and reports [OutOfFuel] when it is exceeded. *)

From Stdlib Require Import ZArith List Bool Lia String Ascii.
From Stdlib Require Import Strings.Byte.
From Stdlib Require Import Floats.
From Stdlib Require Import NArith DecimalString.
Import ListNotations.

Local Open Scope Z_scope.

(** ** ArrayBuffer and DataView *)

Module DataView.

Definition ArrayBuffer := list byte.

Definition byteLength (view : ArrayBuffer) : Z := Z.of_nat (List.length view).

(** The byte stored at index [i]; only meaningful for [0 <= i < byteLength]. *)
Definition byteAt (view : ArrayBuffer) (i : Z) : Z :=
  Z.of_N (Byte.to_N (nth (Z.to_nat i) view x00)).

(** [inRange view off n]: the [n] bytes starting at [off] lie in the buffer.
    Outside of it the DataView getters throw a RangeError. *)
Definition inRange (view : ArrayBuffer) (off n : Z) : bool :=
  (0 <=? off) && (off + n <=? byteLength view).

Definition getUint16 (view : ArrayBuffer) (off : Z) (littleEndian : bool)
  : option Z :=
  if inRange view off 2 then
    let b0 := byteAt view off in
    let b1 := byteAt view (off + 1) in
    Some (if littleEndian then b0 + 256 * b1 else 256 * b0 + b1)
  else None.

Definition getUint32 (view : ArrayBuffer) (off : Z) (littleEndian : bool)
  : option Z :=
  if inRange view off 4 then
    let b0 := byteAt view off in
    let b1 := byteAt view (off + 1) in
    let b2 := byteAt view (off + 2) in
    let b3 := byteAt view (off + 3) in
    Some (if littleEndian
          then b0 + 256 * (b1 + 256 * (b2 + 256 * b3))
          else b3 + 256 * (b2 + 256 * (b1 + 256 * b0)))
  else None.

End DataView.

Import DataView.

(** ** Orientation-to-rotation mapper *)

Definition orientationToDegrees (orientation : Z) : Z :=
  match orientation with
  | 3 => 180
  | 6 => 90
  | 8 => 270
  | _ => 0
  end.

(** ** EXIF / TIFF orientation scanner *)

(** How one pass through the body of the [while] loop ends. *)
Inductive step : Type :=
| Return (v : Z)          (* [return v] *)
| Break                   (* [break] out of the [while] loop *)
| Continue (offset : Z)   (* next iteration, with the updated [offset] *)
| Raise.                  (* a DataView getter threw *)

(** How the [for] loop over the IFD entries ends. *)
Inductive forResult : Type :=
| Found (v : Z)           (* the orientation entry was found: [return] *)
| Exhausted               (* [i] reached [tags] *)
| CutOff                  (* [tagOffset + 12 > length]: [break] *)
| ForRaise.

(** What a call of [readExifOrientation] produces. *)
Inductive outcome : Type :=
| Value (v : Z)
| RangeError
| OutOfFuel.

(** A getter result is threaded on; [None] aborts with the given exception. *)
Notation "'let?' x ':=' e 'else' r 'in' k" :=
  (match e with Some x => k | None => r end)
  (at level 10, x name, e at level 100, r at level 0, k at level 200,
   only parsing).

Section Scanner.

Variable view : ArrayBuffer.

Let length : Z := byteLength view.

(** [for (let i = 0; i < tags; i += 1) { ... }] with [n] the number of
    iterations still allowed by [i < tags]. *)
Fixpoint forTags (offset : Z) (little : bool) (n : nat) (i : Z) : forResult :=
  match n with
  | O => Exhausted
  | S n' =>
      let tagOffset := offset + i * 12 in
      if tagOffset + 12 >? length then CutOff
      else
        let? tag := getUint16 view tagOffset little else ForRaise in
        if tag =? 0x0112 then
          let? v := getUint16 view (tagOffset + 8) little else ForRaise in
          Found v
        else forTags offset little n' (i + 1)
  end.

(** The body of [while (offset < length) { ... }]. *)
Definition body (offset : Z) : step :=
  if offset + 4 >? length then Break
  else
    let? marker := getUint16 view offset false else Raise in
    let offset := offset + 2 in
    if marker =? 0xffe1 then
      if offset + 2 >? length then Break
      else
        let? exifLength := getUint16 view offset false else Raise in
        let offset := offset + 2 in
        if offset + 4 >? length then Break
        else
          let? signature := getUint32 view offset false else Raise in
          if negb (signature =? 0x45786966) then
            Continue (offset + (exifLength - 2))
          else
            let offset := offset + 6 in
            if offset + 10 >? length then Break
            else
              let? order := getUint16 view offset false else Raise in
              let little := order =? 0x4949 in
              let? tiffOffset := getUint32 view (offset + 4) little else Raise in
              let offset := offset + (tiffOffset + 8) in
              if offset + 2 >? length then Break
              else
                let? tags := getUint16 view offset little else Raise in
                let offset := offset + 2 in
                match forTags offset little (Z.to_nat tags) 0 with
                | Found v => Return v
                | Exhausted | CutOff => Continue offset
                | ForRaise => Raise
                end
    else if negb (Z.land marker 0xff00 =? 0xff00) then Break
    else
      if offset + 2 >? length then Break
      else
        let? size := getUint16 view offset false else Raise in
        Continue (offset + size).

(** The [while] loop followed by the final [return -1]; [fuel] is the
    number of times the body may still run. *)
Fixpoint scan (fuel : nat) (offset : Z) : outcome :=
  if negb (offset <? length) then Value (-1)
  else
    match fuel with
    | O => OutOfFuel
    | S fuel' =>
        match body offset with
        | Return v => Value v
        | Break => Value (-1)
        | Continue offset' => scan fuel' offset'
        | Raise => RangeError
        end
    end.

(** [readExifOrientation]. The body runs at most [byteLength / 2] times
    (proved below), so this budget never runs out. *)
Definition readExifOrientation : outcome :=
  if length <? 2 then Value (-1)
  else
    let? soi := getUint16 view 0 false else RangeError in
    if negb (soi =? 0xffd8) then Value (-1)
    else scan (Z.to_nat (length / 2)) 2.

End Scanner.

(** [reaches view offset]: some pass of the marker loop starts at [offset]
    (or the loop ends there). *)
Inductive reaches (view : ArrayBuffer) : Z -> Prop :=
| reaches_start : reaches view 2
| reaches_next (offset offset' : Z) :
    reaches view offset -> offset < byteLength view ->
    body view offset = Continue offset' -> reaches view offset'.

(** ** Truncated buffers *)

(** [cutOffAt view offset]: in the pass of the marker loop that starts at
    [offset] the buffer ends before something the pass is about to read:
    the marker and the segment length, the EXIF signature, the TIFF header,
    or the IFD entry count. *)
Inductive cutOffAt (view : ArrayBuffer) (offset : Z) : Prop :=
| cut_marker :
    byteLength view < offset + 4 -> cutOffAt view offset
| cut_signature :
    getUint16 view offset false = Some 0xffe1 ->
    byteLength view < offset + 8 -> cutOffAt view offset
| cut_tiff_header :
    getUint16 view offset false = Some 0xffe1 ->
    getUint32 view (offset + 4) false = Some 0x45786966 ->
    byteLength view < offset + 20 -> cutOffAt view offset
| cut_ifd_count (order tiffOffset : Z) :
    getUint16 view offset false = Some 0xffe1 ->
    getUint32 view (offset + 4) false = Some 0x45786966 ->
    getUint16 view (offset + 10) false = Some order ->
    getUint32 view (offset + 14) (order =? 0x4949) = Some tiffOffset ->
    byteLength view < offset + 10 + (tiffOffset + 8) + 2 ->
    cutOffAt view offset.

(** [atIfd view offset entries little tags]: the pass that starts at
    [offset] finds an EXIF APP1 segment and gets as far as the entry loop,
    which it runs over [tags] entries from [entries] in byte order
    [little]. *)
Definition atIfd (view : ArrayBuffer) (offset entries : Z) (little : bool)
  (tags : Z) : Prop :=
  exists order tiffOffset,
    getUint16 view offset false = Some 0xffe1 /\
    getUint32 view (offset + 4) false = Some 0x45786966 /\
    getUint16 view (offset + 10) false = Some order /\
    little = (order =? 0x4949) /\
    getUint32 view (offset + 14) little = Some tiffOffset /\
    entries = offset + 10 + (tiffOffset + 8) + 2 /\
    getUint16 view (offset + 10 + (tiffOffset + 8)) little = Some tags.

(** ** Sample buffers *)

Definition bytesOfZ (l : list Z) : ArrayBuffer :=
  map (fun z => match Byte.of_N (Z.to_N z) with Some b => b | None => x00 end) l.

(** A 16-bit and a 32-bit value laid out in the given byte order. *)
Definition enc16 (little : bool) (v : Z) : list Z :=
  if little then [v mod 256; v / 256] else [v / 256; v mod 256].

Definition enc32 (little : bool) (v : Z) : list Z :=
  if little
  then [v mod 256; (v / 256) mod 256; (v / 65536) mod 256; v / 16777216]
  else [v / 16777216; (v / 65536) mod 256; (v / 256) mod 256; v mod 256].

(** The smallest well-formed EXIF JPEG carrying orientation [V]: SOI, one APP1
    segment holding the signature, a TIFF header whose IFD0 offset is 8, and
    an IFD0 with the single entry (tag 0x0112, type SHORT, count 1, value V)
    followed by the next-IFD pointer 0. *)
Definition exifJpeg (little : bool) (V : Z) : ArrayBuffer :=
  bytesOfZ
    ([0xff; 0xd8; 0xff; 0xe1; 0x00; 0x22;
      0x45; 0x78; 0x69; 0x66; 0x00; 0x00]
     ++ (if little then [0x49; 0x49] else [0x4d; 0x4d])
     ++ enc16 little 42 ++ enc32 little 8
     ++ enc16 little 1
     ++ enc16 little 0x0112 ++ enc16 little 3 ++ enc32 little 1
     ++ enc16 little V ++ [0; 0]
     ++ enc32 little 0).

(** ** Well-formed EXIF input, as the EXIF / TIFF layout prescribes it *)

Definition optEqb (o : option Z) (v : Z) : bool :=
  match o with Some x => x =? v | None => false end.

(** The TIFF structure that starts at [tiff] holds, in the IFD0 its header
    points to (offset counted from [tiff]), an entry with tag 0x0112 whose
    value slot, 8 bytes into the entry, is [V]. *)
Definition tiffStoresOrientation (view : ArrayBuffer) (tiff : Z)
  (little : bool) (V : Z) : bool :=
  match getUint32 view (tiff + 4) little with
  | Some ifd0 =>
      match getUint16 view (tiff + ifd0) little with
      | Some n =>
          existsb
            (fun i =>
               let entry := tiff + ifd0 + 2 + 12 * Z.of_nat i in
               (entry + 12 <=? byteLength view)
               && optEqb (getUint16 view entry little) 0x0112
               && optEqb (getUint16 view (entry + 8) little) V)
            (seq 0 (Z.to_nat n))
      | None => false
      end
  | None => false
  end.

(** SOI, then an APP1 segment with the EXIF signature whose TIFF header has
    the given byte order and stores orientation [V]. *)
Definition validExifJpeg (view : ArrayBuffer) (little : bool) (V : Z) : bool :=
  optEqb (getUint16 view 0 false) 0xffd8
  && optEqb (getUint16 view 2 false) 0xffe1
  && optEqb (getUint32 view 6 false) 0x45786966
  && optEqb (getUint16 view 10 false) 0
  && optEqb (getUint16 view 12 false) (if little then 0x4949 else 0x4d4d)
  && optEqb (getUint16 view 14 little) 42
  && tiffStoresOrientation view 12 little V.

(** A buffer whose IFD announces three entries but ends within the third;
    the bytes of the first two entries themselves read as an APP1 / EXIF
    segment with an orientation entry of value 6. *)
Definition nestedCutOff : ArrayBuffer :=
  bytesOfZ
    [0xff; 0xd8; 0xff; 0xe1; 0x00; 0x00;
     0x45; 0x78; 0x69; 0x66; 0x00; 0x00;
     0x4d; 0x4d; 0x00; 0x2a; 0x00; 0x00; 0x00; 0x00;
     0x00; 0x03;
     0xff; 0xe1; 0x00; 0x00; 0x45; 0x78; 0x69; 0x66; 0x00; 0x00; 0x4d; 0x4d;
     0x00; 0x2a; 0x00; 0x00; 0x00; 0x00; 0x00; 0x01; 0x01; 0x12; 0x00; 0x03;
     0x00; 0x00; 0x00; 0x01; 0x00; 0x06; 0x00; 0x00].

(** An EXIF JPEG that ends inside its TIFF header. *)
Definition cutHeaderJpeg : ArrayBuffer := firstn 16 (exifJpeg true 6).

(** SOI, a COM segment of length 4, then the end-of-image marker. *)
Definition plainJpeg : ArrayBuffer :=
  bytesOfZ [0xff; 0xd8; 0xff; 0xfe; 0x00; 0x04; 0x68; 0x69; 0xff; 0xd9].

(** ** Render compositor: display transform *)

(** The decoded image, of which only the natural size is used. *)
Record Image : Type := { width : float; height : float }.

Record DisplayTransform : Type :=
  { displayWidth : float; displayHeight : float; scaleFactor : float }.

(** [const maxHeight = 600]. *)
Definition maxHeight : float := 600%float.

(** [((imageRotation % 360) + 360) % 360]; [%] on integers is the truncated
    remainder. *)
Definition rotationNormalsed (imageRotation : Z) : Z :=
  Z.rem (Z.rem imageRotation 360 + 360) 360.

Definition isUpright (imageRotation : Z) : bool :=
  Z.rem (rotationNormalsed imageRotation) 180 =? 0.

Definition rotatedWidth (img : Image) (imageRotation : Z) : float :=
  if isUpright imageRotation then width img else height img.

Definition rotatedHeight (img : Image) (imageRotation : Z) : float :=
  if isUpright imageRotation then height img else width img.

(** The size computation at the head of [img.onload]. *)
Definition displayTransform (containerWidth : float) (img : Image)
  (imageRotation : Z) : DisplayTransform :=
  let rotatedWidth := rotatedWidth img imageRotation in
  let rotatedHeight := rotatedHeight img imageRotation in
  let displayWidth := containerWidth in
  let displayHeight := (containerWidth * (rotatedHeight / rotatedWidth))%float in
  let '(displayWidth, displayHeight) :=
    if (maxHeight <? displayHeight)%float
    then ((maxHeight * (rotatedWidth / rotatedHeight))%float, maxHeight)
    else (displayWidth, displayHeight) in
  {| displayWidth := displayWidth;
     displayHeight := displayHeight;
     scaleFactor := (displayWidth / rotatedWidth)%float |}.

(** ** Render compositor: drawing *)

Local Open Scope string_scope.
Local Open Scope Z_scope.

(** The calls made on the 2D context, in order. *)
Inductive CanvasOp : Type :=
| ClearRect (x y w h : float)
| Save
| Restore
| Translate (x y : float)
| Rotate (angle : float)
| Scale (x y : float)
| DrawImage (dx dy : float)
| BeginPath
| SetStrokeStyle (style : string)
| SetLineWidth (w : float)
| SetLineDash (segments : list float)
| Rect (x y w h : float)
| Stroke
| SetFillStyle (style : string)
| FillRect (x y w h : float)
| SetFont (font : string)
| SetTextBaseline (baseline : string)
| FillText (text : string) (x y : float).

Record BoundingBoxInfo : Type :=
  { field : string;
    label : string;
    bbox : list float;
    color : string;
    confidence : option float }.

(** [Math.PI]. *)
Definition Math_PI : float := 0x1.921fb54442d18p+1%float.

(** An integer-valued number as a double. *)
Definition numberOfZ (z : Z) : float := PrimFloat.of_uint63 (Uint63.of_Z z).

(** [highlightedField === bboxInfo.field]. *)
Definition isHighlighted (highlightedField : option string) (b : BoundingBoxInfo)
  : bool :=
  match highlightedField with
  | Some f => String.eqb f (field b)
  | None => false
  end.

Section Drawing.

(** What the platform supplies: the width [ctx.measureText] reports for a
    text in a font, the conversion of a number inside a template literal,
    [Math.round], and the conversion of a number stored into
    [canvas.width] / [canvas.height]. *)
Variable measureTextWidth : string -> string -> float.
Variable numberToString : float -> string.
Variable Math_round : float -> float.
Variable toUnsignedLong : float -> float.

(** The body of [boundingBoxes.forEach]. A missing array element is
    [undefined], which arithmetic turns into NaN. *)
Definition drawBox (img : Image) (scaleFactor : float)
  (highlightedField : option string) (bboxInfo : BoundingBoxInfo)
  : list CanvasOp :=
  let drawLineWidth := fun value : float => (value / scaleFactor)%float in
  let fontSize := (12 / scaleFactor)%float in
  let x1 := nth 0 (bbox bboxInfo) nan in
  let y1 := nth 1 (bbox bboxInfo) nan in
  let x2 := nth 2 (bbox bboxInfo) nan in
  let y2 := nth 3 (bbox bboxInfo) nan in
  let isHighlighted := isHighlighted highlightedField bboxInfo in
  let boxX := (x1 - width img / 2)%float in
  let boxY := (y1 - height img / 2)%float in
  let width := (x2 - x1)%float in
  let height := (y2 - y1)%float in
  let confidenceText :=
    match confidence bboxInfo with
    | Some c => " (" ++ numberToString (Math_round (c * 100)%float) ++ "%)"
    | None => EmptyString
    end in
  let labelText := label bboxInfo ++ confidenceText in
  let font := "bold " ++ numberToString fontSize ++ "px sans-serif" in
  let labelPadding := (4 / scaleFactor)%float in
  let labelHeight := (fontSize + labelPadding * 2)%float in
  let labelWidth := (measureTextWidth font labelText + labelPadding * 2)%float in
  [ BeginPath;
    SetStrokeStyle (color bboxInfo);
    SetLineWidth (drawLineWidth (if isHighlighted then 4 else 2)%float);
    SetLineDash (if isHighlighted then [] else [5; 5]%float);
    Rect boxX boxY width height;
    Stroke;
    SetFillStyle (color bboxInfo ++ (if isHighlighted then "40" else "20"));
    FillRect boxX boxY width height;
    SetFont font;
    SetFillStyle (color bboxInfo);
    FillRect boxX (boxY - labelHeight - labelPadding)%float labelWidth labelHeight;
    SetFillStyle "#FFFFFF";
    SetTextBaseline "top";
    FillText labelText (boxX + labelPadding)%float
      (boxY - labelHeight - labelPadding + labelPadding)%float ].

(** [img.onload] from the sizing of the canvas on, given the transform
    computed before it. *)
Definition paint (img : Image) (t : DisplayTransform) (imageRotation : Z)
  (boundingBoxes : list BoundingBoxInfo) (highlightedField : option string)
  : list CanvasOp :=
  let canvasWidth := toUnsignedLong (displayWidth t) in
  let canvasHeight := toUnsignedLong (displayHeight t) in
  ([ ClearRect 0 0 canvasWidth canvasHeight;
    Save;
    Translate (displayWidth t / 2)%float (displayHeight t / 2)%float;
    Rotate (numberOfZ (rotationNormalsed imageRotation) * Math_PI / 180)%float;
    Scale (scaleFactor t) (scaleFactor t);
    DrawImage (- width img / 2)%float (- height img / 2)%float ]
  ++ flat_map (drawBox img (scaleFactor t) highlightedField) boundingBoxes
  ++ [ Restore ])%list.


End Drawing.

(** *** The current transformation matrix of the 2D context *)

(** The matrix [a c e; b d f; 0 0 1] of the canvas specification. *)
Record Matrix : Type :=
  { ma : float; mb : float; mc : float; md : float; me : float; mf : float }.


(** [Number.isFinite]: neither NaN nor an infinity. *)
Definition isFinite (x : float) : bool :=
  match classify x with
  | NaN | PInf | NInf => false
  | _ => true
  end.

Section Canvas.

Local Open Scope float_scope.

(** [Math.cos] and [Math.sin] of the platform. *)
Variable Math_cos : float -> float.
Variable Math_sin : float -> float.

Definition translate (m : Matrix) (x y : float) : Matrix :=
  {| ma := ma m; mb := mb m; mc := mc m; md := md m;
     me := ma m * x + mc m * y + me m;
     mf := mb m * x + md m * y + mf m |}.

Definition rotate (m : Matrix) (angle : float) : Matrix :=
  let c := Math_cos angle in
  let s := Math_sin angle in
  {| ma := ma m * c + mc m * s; mb := mb m * c + md m * s;
     mc := mc m * c - ma m * s; md := md m * c - mb m * s;
     me := me m; mf := mf m |}.

Definition scale (m : Matrix) (x y : float) : Matrix :=
  {| ma := ma m * x; mb := mb m * x; mc := mc m * y; md := md m * y;
     me := me m; mf := mf m |}.


(** *** What the calls leave on the surface *)

(** The drawing state of the context: what [save] pushes and [restore]
    pops. The current path is not part of it. *)
Record Context : Type :=
  { ctm : Matrix;
    strokeStyle : string;
    fillStyle : string;
    lineWidth : float;
    lineDash : list float;
    font : string;
    textBaseline : string }.

(** A rectangle given in user space, with the matrix that was current when
    it was given. *)
Record Placed : Type :=
  { transform : Matrix; rx : float; ry : float; rw : float; rh : float }.

(** What a call leaves on the surface. *)
Inductive Mark : Type :=
| Cleared (r : Placed)
| Drawn (m : Matrix) (dx dy : float)
| Stroked (outline : list Placed) (style : string) (width : float)
    (dash : list float)
| Filled (r : Placed) (style : string)
| Written (text : string) (m : Matrix) (x y : float)
    (style font baseline : string).

Record Canvas : Type :=
  { current : Context;
    saved : list Context;
    path : list Placed;
    marks : list Mark }.


(** Whether the platform parses a string as a CSS colour, and as a CSS
    font. *)
Variable isColor : string -> bool.
Variable isFont : string -> bool.

(** The calls the platform carries out. It ignores a call that has an
    infinite or NaN argument, a [clearRect] or [fillRect] of width or
    height zero, a line width that is not positive, a dash list with a
    negative entry, and a style, font or baseline it cannot parse. *)
Definition takesEffect (op : CanvasOp) : bool :=
  match op with
  | ClearRect x y w h | FillRect x y w h =>
      isFinite x && isFinite y && isFinite w && isFinite h
      && negb (w =? 0) && negb (h =? 0)
  | Rect x y w h =>
      isFinite x && isFinite y && isFinite w && isFinite h
  | Translate x y | Scale x y | DrawImage x y | FillText _ x y =>
      isFinite x && isFinite y
  | Rotate angle => isFinite angle
  | SetStrokeStyle style | SetFillStyle style => isColor style
  | SetLineWidth w => isFinite w && (0 <? w)
  | SetLineDash segments =>
      forallb (fun v => isFinite v && (0 <=? v)) segments
  | SetFont f => isFont f
  | SetTextBaseline baseline =>
      existsb (String.eqb baseline)
        [ "top"; "hanging"; "middle"; "alphabetic"; "ideographic"; "bottom" ]
  | Save | Restore | BeginPath | Stroke => true
  end.

Definition withCtm (c : Context) (m : Matrix) : Context :=
  {| ctm := m; strokeStyle := strokeStyle c; fillStyle := fillStyle c;
     lineWidth := lineWidth c; lineDash := lineDash c;
     font := font c; textBaseline := textBaseline c |}.

(** A call that takes effect. *)
Definition perform (op : CanvasOp) (cv : Canvas) : Canvas :=
  let c := current cv in
  let set := fun c' : Context =>
    {| current := c'; saved := saved cv; path := path cv; marks := marks cv |} in
  let mark := fun k : Mark =>
    {| current := c; saved := saved cv; path := path cv;
       marks := (marks cv ++ [k])%list |} in
  let place := fun x y w h : float =>
    {| transform := ctm c; rx := x; ry := y; rw := w; rh := h |} in
  match op with
  | ClearRect x y w h => mark (Cleared (place x y w h))
  | Save =>
      {| current := c; saved := c :: saved cv; path := path cv;
         marks := marks cv |}
  | Restore =>
      match saved cv with
      | c' :: rest =>
          {| current := c'; saved := rest; path := path cv; marks := marks cv |}
      | [] => cv
      end
  | Translate x y => set (withCtm c (translate (ctm c) x y))
  | Rotate angle => set (withCtm c (rotate (ctm c) angle))
  | Scale x y => set (withCtm c (scale (ctm c) x y))
  | DrawImage dx dy => mark (Drawn (ctm c) dx dy)
  | BeginPath =>
      {| current := c; saved := saved cv; path := []; marks := marks cv |}
  | SetStrokeStyle style =>
      set {| ctm := ctm c; strokeStyle := style; fillStyle := fillStyle c;
             lineWidth := lineWidth c; lineDash := lineDash c;
             font := font c; textBaseline := textBaseline c |}
  | SetLineWidth w =>
      set {| ctm := ctm c; strokeStyle := strokeStyle c; fillStyle := fillStyle c;
             lineWidth := w; lineDash := lineDash c;
             font := font c; textBaseline := textBaseline c |}
  | SetLineDash segments =>
      set {| ctm := ctm c; strokeStyle := strokeStyle c; fillStyle := fillStyle c;
             lineWidth := lineWidth c; lineDash := segments;
             font := font c; textBaseline := textBaseline c |}
  | Rect x y w h =>
      {| current := c; saved := saved cv;
         path := (path cv ++ [place x y w h])%list; marks := marks cv |}
  | Stroke =>
      mark (Stroked (path cv) (strokeStyle c) (lineWidth c) (lineDash c))
  | SetFillStyle style =>
      set {| ctm := ctm c; strokeStyle := strokeStyle c; fillStyle := style;
             lineWidth := lineWidth c; lineDash := lineDash c;
             font := font c; textBaseline := textBaseline c |}
  | FillRect x y w h => mark (Filled (place x y w h) (fillStyle c))
  | SetFont f =>
      set {| ctm := ctm c; strokeStyle := strokeStyle c; fillStyle := fillStyle c;
             lineWidth := lineWidth c; lineDash := lineDash c;
             font := f; textBaseline := textBaseline c |}
  | SetTextBaseline baseline =>
      set {| ctm := ctm c; strokeStyle := strokeStyle c; fillStyle := fillStyle c;
             lineWidth := lineWidth c; lineDash := lineDash c;
             font := font c; textBaseline := baseline |}
  | FillText text x y =>
      mark (Written text (ctm c) x y (fillStyle c) (font c) (textBaseline c))
  end.

Definition call (cv : Canvas) (op : CanvasOp) : Canvas :=
  if takesEffect op then perform op cv else cv.

(** The canvas after the calls, made in order. *)
Definition exec (ops : list CanvasOp) (cv : Canvas) : Canvas :=
  fold_left call ops cv.

(** The outlines stroked, each with the rectangles of its path, and the
    rectangles filled, in the order of the calls. *)
Definition outlines (ms : list Mark) : list (list Placed) :=
  flat_map (fun k => match k with Stroked p _ _ _ => [p] | _ => [] end) ms.

Definition fills (ms : list Mark) : list Placed :=
  flat_map (fun k => match k with Filled r _ => [r] | _ => [] end) ms.


End Canvas.





(** ** Interaction layer: the highlighted field *)

(** The clicks that reach [setHighlightedField] in [App]: on a legend entry
    of [BoundingBoxVisualizer], and on a field card of [ResultsDisplay]. The
    canvas itself has [pointerEvents: "none"] and takes no clicks. *)
Inductive Click : Type :=
| LegendClick (field : string)
| CardClick (field : string).

(** [onClick={() => onFieldClick?.(bboxInfo.field)}], with
    [onFieldClick={setHighlightedField}]. *)
Definition legendOnClick (highlightedField : option string) (field : string)
  : option string :=
  Some field.

(** [onFieldSelect(highlightedField === f ? null : f)], with
    [onFieldSelect={setHighlightedField}]. *)
Definition cardOnClick (highlightedField : option string) (field : string)
  : option string :=
  match highlightedField with
  | Some h => if String.eqb h field then None else Some field
  | None => Some field
  end.

Definition click (highlightedField : option string) (c : Click) : option string :=
  match c with
  | LegendClick f => legendOnClick highlightedField f
  | CardClick f => cardOnClick highlightedField f
  end.

(** The highlight after a sequence of clicks. *)
Definition clicks (highlightedField : option string) (cs : list Click)
  : option string :=
  fold_left click cs highlightedField.

(** ** Buffer loader *)

(** A settled promise, or the completion of a [try] block. *)
Inductive Settled (A : Type) : Type :=
| Fulfilled (a : A)
| Rejected.

Arguments Fulfilled {A} a.
Arguments Rejected {A}.

(** What [fetch] resolves to: the [ok] flag and the promise of
    [arrayBuffer()]. *)
Record Response : Type :=
  { ok : bool; arrayBuffer : Settled ArrayBuffer }.

Section Loader.

(** The network and the base64 decoder of the platform; [atob] throws on
    malformed input ([None]). *)
Variable fetch : string -> Settled Response.
Variable atob : string -> option string.

(** [dataUrlToArrayBuffer]: its [try] block, then the [catch] that turns
    any exception into [null]. *)
Definition dataUrlToArrayBuffer_try (dataUrl : string)
  : Settled (option ArrayBuffer) :=
  match String.index 0 "base64," dataUrl with
  | None => Fulfilled None
  | Some base64Index =>
      let base64 :=
        String.substring (base64Index + 7)
          (String.length dataUrl - (base64Index + 7)) dataUrl in
      match atob base64 with
      | None => Rejected
      | Some binary => Fulfilled (Some (list_byte_of_string binary))
      end
  end.

Definition dataUrlToArrayBuffer (dataUrl : string) : option ArrayBuffer :=
  match dataUrlToArrayBuffer_try dataUrl with
  | Fulfilled r => r
  | Rejected => None
  end.

(** [loadImageBuffer]: its [try] block, then the [catch]. *)
Definition loadImageBuffer_try (imageUrl : string)
  : Settled (option ArrayBuffer) :=
  if String.prefix "data:" imageUrl then
    Fulfilled (dataUrlToArrayBuffer imageUrl)
  else
    match fetch imageUrl with
    | Rejected => Rejected
    | Fulfilled response =>
        if negb (ok response) then Fulfilled None
        else
          match arrayBuffer response with
          | Rejected => Rejected
          | Fulfilled buffer => Fulfilled (Some buffer)
          end
    end.

Definition loadImageBuffer (imageUrl : string) : Settled (option ArrayBuffer) :=
  match loadImageBuffer_try imageUrl with
  | Fulfilled r => Fulfilled r
  | Rejected => Fulfilled None
  end.

(** [getImageRotationDegrees]; an exception of [readExifOrientation] would
    reject the promise (and so would an exhausted budget, which cannot
    occur). *)
Definition getImageRotationDegrees (imageUrl : string) : Settled Z :=
  match loadImageBuffer imageUrl with
  | Rejected => Rejected
  | Fulfilled None => Fulfilled 0
  | Fulfilled (Some buffer) =>
      match readExifOrientation buffer with
      | Value orientation => Fulfilled (orientationToDegrees orientation)
      | RangeError | OutOfFuel => Rejected
      end
  end.

End Loader.

(** ** Orientation detection across source changes *)

(** One run of the orientation effect that started [detectOrientation]: the
    source it scans, its closure variable [cancelled], and whether its
    [await] has completed. The cleanup function and the continuation of the
    [await] share the variable. *)
Record EffectRun : Type :=
  { url : string; cancelled : bool; completed : bool }.

(** The component: the [imageUrl] prop of the last render, the state
    [imageRotation], every effect run so far, and the run whose cleanup
    function React holds (none when the effect returned nothing). *)
Record Visualizer : Type :=
  { imageUrl : option string;
    imageRotation : Z;
    runs : list EffectRun;
    cleanup : option nat }.

Inductive Event : Type :=
| SetImageUrl (imageUrl : option string)  (* a render with this prop *)
| Complete (run : nat).                   (* the [await] of a run completes *)

(** [!imageUrl]: [null] and the empty string. *)
Definition falsy (imageUrl : option string) : bool :=
  match imageUrl with
  | None => true
  | Some s => String.eqb s EmptyString
  end.

(** Equality of the dependency [imageUrl] between renders. *)
Definition sameUrl (a b : option string) : bool :=
  match a, b with
  | None, None => true
  | Some x, Some y => String.eqb x y
  | _, _ => false
  end.

Fixpoint updateAt {A : Type} (i : nat) (f : A -> A) (l : list A) : list A :=
  match l, i with
  | [], _ => []
  | x :: l', O => f x :: l'
  | x :: l', S i' => x :: updateAt i' f l'
  end.

Definition cancel (r : EffectRun) : EffectRun :=
  {| url := url r; cancelled := true; completed := completed r |}.

Definition complete (r : EffectRun) : EffectRun :=
  {| url := url r; cancelled := cancelled r; completed := true |}.

(** React calls the cleanup function of the previous effect run:
    [cancelled = true]. *)
Definition runCleanup (s : Visualizer) : Visualizer :=
  match cleanup s with
  | Some i =>
      {| imageUrl := imageUrl s; imageRotation := imageRotation s;
         runs := updateAt i cancel (runs s); cleanup := None |}
  | None => s
  end.

(** The effect body for a render with prop [u]. *)
Definition runEffect (u : option string) (s : Visualizer) : Visualizer :=
  match u with
  | Some source =>
      if falsy u then
        {| imageUrl := u; imageRotation := 0; runs := runs s; cleanup := None |}
      else
        {| imageUrl := u; imageRotation := imageRotation s;
           runs := (runs s ++
                    [{| url := source; cancelled := false; completed := false |}])%list;
           cleanup := Some (List.length (runs s)) |}
  | None =>
      {| imageUrl := u; imageRotation := 0; runs := runs s; cleanup := None |}
  end.

(** The component as mounted with prop [u]: [useState(0)], then the first
    effect run. *)
Definition mount (u : option string) : Visualizer :=
  runEffect u {| imageUrl := u; imageRotation := 0; runs := []; cleanup := None |}.

Section Effect.

(** The degrees [getImageRotationDegrees] resolves to for a source. *)
Variable rotationDegrees : string -> Z.

Definition react (s : Visualizer) (e : Event) : Visualizer :=
  match e with
  | SetImageUrl u =>
      if sameUrl u (imageUrl s) then s else runEffect u (runCleanup s)
  | Complete i =>
      match nth_error (runs s) i with
      | Some r =>
          if completed r then s
          else
            {| imageUrl := imageUrl s;
               imageRotation :=
                 if cancelled r then imageRotation s else rotationDegrees (url r);
               runs := updateAt i complete (runs s);
               cleanup := cleanup s |}
      | None => s
      end
  end.

(** The component after a sequence of events. *)
Definition reacts (s : Visualizer) (es : list Event) : Visualizer :=
  fold_left react es s.

(** The states the component can be in. *)
Inductive reachable : Visualizer -> Prop :=
| reachable_mount (u : option string) : reachable (mount u)
| reachable_react (s : Visualizer) (e : Event) :
    reachable s -> reachable (react s e).

(** The run React holds the cleanup of is alive and scans the current
    source; every other run is cancelled; without such a run the rotation
    is 0. *)
Record consistent (s : Visualizer) : Prop :=
  { others_cancelled :
      forall i r, nth_error (runs s) i = Some r -> cleanup s <> Some i ->
                  cancelled r = true;
    current_alive :
      forall i, cleanup s = Some i ->
                exists r, nth_error (runs s) i = Some r /\
                          cancelled r = false /\
                          imageUrl s = Some (url r) /\
                          (completed r = true ->
                           imageRotation s = rotationDegrees (url r));
    no_source :
      cleanup s = None -> imageRotation s = 0 }.

End Effect.

(** ** Extraction results *)

(** The extraction payload of a document, with the fields the components
    read ([api/types] declares it). A field that is [null] or missing is
    [None]. *)
Module Doc.

Record DocumentData : Type :=
  { document_type : option string;
    full_name : option string;
    date_of_birth : option string;
    document_number : option string;
    expiry_date : option string;
    issue_date : option string;
    nationality : option string;
    address : option string;
    extracted_text : option string;
    full_name_bbox : option (list float);
    date_of_birth_bbox : option (list float);
    document_number_bbox : option (list float);
    expiry_date_bbox : option (list float);
    issue_date_bbox : option (list float);
    nationality_bbox : option (list float);
    address_bbox : option (list float);
    full_name_confidence : option float;
    date_of_birth_confidence : option float;
    document_number_confidence : option float;
    expiry_date_confidence : option float;
    issue_date_confidence : option float;
    nationality_confidence : option float;
    address_confidence : option float }.

(** A document as the API returns it. *)
Record DocumentResponse : Type :=
  { id : string;
    status : string;
    data : option DocumentData;
    image_preview : option string;
    error : option string;
    source_file : option string }.

End Doc.

Definition FIELD_COLORS : list (string * string) :=
  [ ("full_name", "#3B82F6");
    ("date_of_birth", "#10B981");
    ("document_number", "#F59E0B");
    ("expiry_date", "#8B5CF6");
    ("issue_date", "#EC4899");
    ("nationality", "#06B6D4");
    ("address", "#F97316") ].

Definition FIELD_LABELS : list (string * string) :=
  [ ("full_name", "Full Name");
    ("date_of_birth", "Date of Birth");
    ("document_number", "Document Number");
    ("expiry_date", "Expiry Date");
    ("issue_date", "Issue Date");
    ("nationality", "Nationality");
    ("address", "Address") ].

(** [table.key] for a key the table holds. *)
Definition prop (table : list (string * string)) (key : string) : string :=
  match find (fun kv => String.eqb (fst kv) key) table with
  | Some kv => snd kv
  | None => EmptyString
  end.

(** [bbox && bbox.length === 4]. *)
Definition validBox (bbox : option (list float)) : bool :=
  match bbox with
  | Some b => Nat.eqb (List.length b) 4
  | None => false
  end.

(** One of the seven blocks [if (data.f_bbox && data.f_bbox.length === 4)
    { boxes.push({...}) }], for the field named [key]. *)
Definition pushBox (boxes : list BoundingBoxInfo) (key : string)
  (bbox : option (list float)) (confidence : option float)
  : list BoundingBoxInfo :=
  match bbox with
  | Some b =>
      if validBox bbox then
        (boxes ++ [ {| field := key; label := prop FIELD_LABELS key; bbox := b;
                       color := prop FIELD_COLORS key;
                       confidence := confidence |} ])%list
      else boxes
  | None => boxes
  end.

(** The [useMemo] that collects the boxes of [data]. *)
Definition boundingBoxes (data : option Doc.DocumentData) : list BoundingBoxInfo :=
  match data with
  | None => []
  | Some data =>
      let boxes := [] in
      let boxes := pushBox boxes "full_name"
                     (Doc.full_name_bbox data) (Doc.full_name_confidence data) in
      let boxes := pushBox boxes "date_of_birth"
                     (Doc.date_of_birth_bbox data) (Doc.date_of_birth_confidence data) in
      let boxes := pushBox boxes "document_number"
                     (Doc.document_number_bbox data) (Doc.document_number_confidence data) in
      let boxes := pushBox boxes "expiry_date"
                     (Doc.expiry_date_bbox data) (Doc.expiry_date_confidence data) in
      let boxes := pushBox boxes "issue_date"
                     (Doc.issue_date_bbox data) (Doc.issue_date_confidence data) in
      let boxes := pushBox boxes "nationality"
                     (Doc.nationality_bbox data) (Doc.nationality_confidence data) in
      let boxes := pushBox boxes "address"
                     (Doc.address_bbox data) (Doc.address_confidence data) in
      boxes
  end.

(** The field names in the order of the seven blocks, and the rect the
    payload holds for a field name. *)
Definition fieldOrder : list string :=
  [ "full_name"; "date_of_birth"; "document_number"; "expiry_date";
    "issue_date"; "nationality"; "address" ].

Definition bboxOf (data : Doc.DocumentData) (key : string) : option (list float) :=
  if String.eqb key "full_name" then Doc.full_name_bbox data
  else if String.eqb key "date_of_birth" then Doc.date_of_birth_bbox data
  else if String.eqb key "document_number" then Doc.document_number_bbox data
  else if String.eqb key "expiry_date" then Doc.expiry_date_bbox data
  else if String.eqb key "issue_date" then Doc.issue_date_bbox data
  else if String.eqb key "nationality" then Doc.nationality_bbox data
  else if String.eqb key "address" then Doc.address_bbox data
  else None.

Definition hasBox (data : Doc.DocumentData) (key : string) : bool :=
  validBox (bboxOf data key).

(** A [setLineDash([])] call: the outline that follows is solid. *)
Definition isSolidDash (op : CanvasOp) : bool :=
  match op with
  | SetLineDash [] => true
  | _ => false
  end.

Definition solidOutlines (ops : list CanvasOp) : nat :=
  List.length (filter isSolidDash ops).

(** ** Upload form *)

Module Upload.

(** A [File], with what the code reads of it. *)
Record File : Type := { name : string; type : string; size : N }.

Definition allowedTypes : list string :=
  [ "image/jpeg"; "image/jpg"; "image/png"; "image/gif"; "image/bmp" ].

(** [10 * 1024 * 1024]. *)
Definition maxSize : N := (10 * 1024 * 1024)%N.

(** [list.includes(s)]. *)
Definition includes (l : list string) (s : string) : bool :=
  existsb (String.eqb s) l.

(** [validateFile]: the verdict and the alert shown, if any. *)
Definition validateFile (file : File) : bool * option string :=
  if negb (includes allowedTypes (type file)) then
    (false, Some "Invalid file type. Please upload a JPEG, PNG, GIF, or BMP image.")
  else if (maxSize <? size file)%N then
    (false, Some "File too large. Maximum size is 10MB.")
  else (true, None).

Record UploadOptions : Type :=
  { document_type : option string;
    model : option string;
    deployment_type : option string;
    custom_model_path : option string }.

(** The state of [DocumentUpload]. *)
Record State : Type :=
  { selectedFile : option File;
    documentType : string;
    selectedModel : string;
    deploymentType : string;
    customModelPath : string;
    dragActive : bool }.

Definition AVAILABLE_MODELS : list string :=
  [ "accounts/fireworks/models/qwen2p5-vl-32b-instruct";
    "accounts/fireworks/models/qwen2-vl-72b-instruct";
    "accounts/fireworks/models/llava-v1.5-13b" ].

Definition initial : State :=
  {| selectedFile := None;
     documentType := "auto";
     selectedModel := nth 0 AVAILABLE_MODELS EmptyString;
     deploymentType := "Serverless";
     customModelPath := EmptyString;
     dragActive := false |}.

(** What a handler does besides updating the state. *)
Inductive Effect : Type :=
| Alert (message : string)
| OnFileSelect (file : option File)
| OnUpload (file : File) (options : UploadOptions)
| ClearInput.

Inductive Event : Type :=
| Drag (eventType : string)
| Drop (files : list File)
| FileInput (files : list File)
| RemoveFile
| Reset
| SetDocumentType (value : string)
| SetModel (value : string)
| SetDeploymentType (value : string)
| SetCustomModelPath (value : string)
| Submit (isProcessing : bool).

Definition setSelectedFile (s : State) (f : option File) : State :=
  {| selectedFile := f; documentType := documentType s;
     selectedModel := selectedModel s; deploymentType := deploymentType s;
     customModelPath := customModelPath s; dragActive := dragActive s |}.

Definition setDragActive (s : State) (b : bool) : State :=
  {| selectedFile := selectedFile s; documentType := documentType s;
     selectedModel := selectedModel s; deploymentType := deploymentType s;
     customModelPath := customModelPath s; dragActive := b |}.

(** The part [handleDrop] and [handleFileInput] share: validate the file,
    select it or leave the selection, and tell the parent. *)
Definition selectFile (s : State) (file : File) : State * list Effect :=
  let '(valid, alert) := validateFile file in
  let alerts := match alert with Some m => [Alert m] | None => [] end in
  if valid then (setSelectedFile s (Some file), alerts ++ [OnFileSelect (Some file)])%list
  else (s, alerts ++ [OnFileSelect None])%list.

Definition handleDrag (s : State) (eventType : string) : State :=
  if String.eqb eventType "dragenter" || String.eqb eventType "dragover"
  then setDragActive s true
  else if String.eqb eventType "dragleave" then setDragActive s false
  else s.

Definition handleDrop (s : State) (files : list File) : State * list Effect :=
  let s := setDragActive s false in
  match files with
  | file :: _ => selectFile s file
  | [] => (s, [])
  end.

Definition handleFileInput (s : State) (files : list File) : State * list Effect :=
  match files with
  | file :: _ => selectFile s file
  | [] => (s, [OnFileSelect None])
  end.

(** [s === "" ? false : true], the truth value of a string. *)
Definition truthy (s : string) : bool := negb (String.eqb s EmptyString).

Definition handleSubmit (s : State) (isProcessing : bool) : list Effect :=
  match selectedFile s with
  | None => [Alert "Please select a file to upload"]
  | Some file =>
      if isProcessing then []
      else if (size file =? 0)%N then
        [Alert "File appears to be empty. Please select a valid file."]
      else
        [OnUpload file
           {| document_type := Some (documentType s);
              model := Some (selectedModel s);
              deployment_type := Some (deploymentType s);
              custom_model_path :=
                if String.eqb (deploymentType s) "On-demand"
                   && truthy (customModelPath s)
                then Some (customModelPath s) else None |}]
  end.

(** The guarded reset of the file input, [if (fileInputRef.current) ...].
    The input is rendered only in the branch without a selected file, so
    the ref holds an element exactly while no file is selected. *)
Definition clearInput (s : State) : list Effect :=
  match selectedFile s with
  | None => [ClearInput]
  | Some _ => []
  end.

Definition handle (s : State) (e : Event) : State * list Effect :=
  match e with
  | Drag t => (handleDrag s t, [])
  | Drop files => handleDrop s files
  | FileInput files => handleFileInput s files
  | RemoveFile =>
      (setSelectedFile s None, clearInput s ++ [OnFileSelect None])%list
  | Reset => (setSelectedFile s None, clearInput s)
  | SetDocumentType v =>
      ({| selectedFile := selectedFile s; documentType := v;
          selectedModel := selectedModel s; deploymentType := deploymentType s;
          customModelPath := customModelPath s; dragActive := dragActive s |}, [])
  | SetModel v =>
      ({| selectedFile := selectedFile s; documentType := documentType s;
          selectedModel := v; deploymentType := deploymentType s;
          customModelPath := customModelPath s; dragActive := dragActive s |}, [])
  | SetDeploymentType v =>
      ({| selectedFile := selectedFile s; documentType := documentType s;
          selectedModel := selectedModel s; deploymentType := v;
          customModelPath := customModelPath s; dragActive := dragActive s |}, [])
  | SetCustomModelPath v =>
      ({| selectedFile := selectedFile s; documentType := documentType s;
          selectedModel := selectedModel s; deploymentType := deploymentType s;
          customModelPath := v; dragActive := dragActive s |}, [])
  | Submit isProcessing => (s, handleSubmit s isProcessing)
  end.

(** The state after a sequence of events, and everything done on the way. *)
Fixpoint run (s : State) (es : list Event) : State * list Effect :=
  match es with
  | [] => (s, [])
  | e :: es' =>
      let '(s1, out1) := handle s e in
      let '(s2, out2) := run s1 es' in
      (s2, out1 ++ out2)%list
  end.

(** The checks [App.handleUpload] makes before it calls the API: the
    message of the error it throws, if any. *)
Definition handleUploadCheck (file : File) : option string :=
  if negb (includes allowedTypes (type file)) then
    Some "Invalid file type. Please upload a JPEG, PNG, GIF, or BMP image."
  else if (maxSize <? size file)%N then
    Some "File too large. Maximum size is 10MB."
  else if (size file =? 0)%N then
    Some "File is invalid or empty. Please select a valid file."
  else if (size file =? 0)%N then
    Some "File is invalid or was removed. Please select the file again."
  else None.

(** A value appended to the form data. *)
Inductive FormValue : Type :=
| FileValue (file : File)
| TextValue (text : string).

(** [value || fallback] for an optional string. *)
Definition orElse (value : option string) (fallback : string) : string :=
  match value with
  | Some v => if truthy v then v else fallback
  | None => fallback
  end.

(** The form [ApiClient.uploadDocument] posts. *)
Definition formData (file : File) (options : UploadOptions)
  : list (string * FormValue) :=
  ([ ("file", FileValue file);
     ("document_type", TextValue (orElse (document_type options) "auto"));
     ("model",
      TextValue (orElse (model options)
                   "accounts/fireworks/models/qwen2p5-vl-32b-instruct"));
     ("deployment_type",
      TextValue (orElse (deployment_type options) "Serverless")) ]
   ++ match custom_model_path options with
      | Some path =>
          if truthy path then [("custom_model_path", TextValue path)] else []
      | None => []
      end)%list.

End Upload.

(** ** API client *)

Module Api.

(** What a rejected promise or a [throw] carries: an [Error] with its
    message, or some other value. *)
Inductive Thrown : Type :=
| ErrorObject (message : string)
| OtherValue.

Inductive Outcome (A : Type) : Type :=
| Resolved (a : A)
| Failed (e : Thrown).

Arguments Resolved {A} a.
Arguments Failed {A} e.

(** A value parsed from JSON. An object holds its members under distinct
    keys; a number is a double. *)
#[warnings="-register-all"] Inductive Json : Type :=
| JNull
| JBool (b : bool)
| JNumber (x : float)
| JString (s : string)
| JArray (items : list Json)
| JObject (members : list (string * Json)).

(** [object.key] for a parsed object: the member, or [undefined]. *)
Definition member (key : string) (members : list (string * Json))
  : option Json :=
  match find (fun kv => String.eqb (fst kv) key) members with
  | Some kv => Some (snd kv)
  | None => None
  end.

(** The truth value of a parsed value: [null], [false], 0, -0 and the
    empty string are falsy, every array and object is truthy. *)
Definition truthy (v : Json) : bool :=
  match v with
  | JNull => false
  | JBool b => b
  | JNumber x => negb ((x =? 0)%float || is_nan x)
  | JString s => Upload.truthy s
  | JArray _ | JObject _ => true
  end.

(** [error.detail] for a parsed body: [None] when the access throws (the
    body is [null]); a primitive and an array have no such property. *)
Definition detailOf (error : Json) : option (option Json) :=
  match error with
  | JNull => None
  | JObject members => Some (member "detail" members)
  | _ => Some None
  end.

Section Client.

(** What the engine supplies: the conversion of a number to a string, and
    the message of the [TypeError] it throws when an object cannot be
    converted to a primitive value. *)
Variable numberToString : float -> string.
Variable typeErrorMessage : string.

(** The conversion of a parsed value to a string, as [new Error(value)]
    makes it; [None] when it throws a [TypeError]. An array joins its
    items with commas, [null] items as empty strings; an object gives
    "[object Object]" through [Object.prototype.toString], unless a member
    of its own named [toString] hides that method. *)
Fixpoint toString (v : Json) : option string :=
  match v with
  | JNull => Some "null"
  | JBool b => Some (if b then "true" else "false")
  | JNumber x => Some (numberToString x)
  | JString s => Some s
  | JArray items =>
      (fix join (items : list Json) : option string :=
         match items with
         | [] => Some EmptyString
         | item :: rest =>
             let first :=
               match item with
               | JNull => Some EmptyString
               | _ => toString item
               end in
             match rest with
             | [] => first
             | _ :: _ =>
                 match first, join rest with
                 | Some a, Some b => Some (a ++ "," ++ b)
                 | _, _ => None
                 end
             end
         end) items
  | JObject members =>
      match member "toString" members with
      | Some _ => None
      | None => Some "[object Object]"
      end
  end.

Record HttpResponse : Type :=
  { ok : bool; status : N; statusText : string; json : Outcome Json }.

(** [`HTTP ${response.status}: ${response.statusText}`]. *)
Definition statusLine (response : HttpResponse) : string :=
  "HTTP " ++ NilZero.string_of_uint (N.to_uint (status response)) ++ ": "
  ++ statusText response.

(** What the variable [errorMessage] holds for a response that is not
    [ok] when the [Error] is made: the status line, replaced by
    [error.detail] when the body can be read and that value is truthy;
    a body that cannot be read, or [null], leaves the status line. *)
Definition errorMessage (response : HttpResponse) : Json :=
  let errorMessage := JString (statusLine response) in
  match json response with
  | Resolved error =>
      match detailOf error with
      | Some (Some detail) => if truthy detail then detail else errorMessage
      | Some None => errorMessage
      | None => errorMessage
      end
  | Failed _ => errorMessage
  end.

(** [throw new Error(errorMessage)]: the message is the value converted
    to a string; when that conversion throws, its [TypeError] is what is
    thrown. *)
Definition throwError (errorMessage : Json) : Thrown :=
  match toString errorMessage with
  | Some message => ErrorObject message
  | None => ErrorObject typeErrorMessage
  end.

(** The [try] block of [request] and of [uploadDocument]: what it throws,
    or the promise it returns. *)
Definition respond (fetched : Outcome HttpResponse) : Outcome (Outcome Json) :=
  match fetched with
  | Failed e => Failed e
  | Resolved response =>
      if negb (ok response) then Failed (throwError (errorMessage response))
      else Resolved (json response)
  end.

(** The [catch] block: an [Error] is thrown on, anything else is replaced
    by an [Error] with the given message. *)
Definition rethrow (fallback : string) (e : Thrown) : Thrown :=
  match e with
  | ErrorObject m => ErrorObject m
  | OtherValue => ErrorObject fallback
  end.

Definition request (fetched : Outcome HttpResponse) : Outcome Json :=
  match respond fetched with
  | Resolved promise => promise
  | Failed e => Failed (rethrow "Network error - please check your connection" e)
  end.

Definition uploadDocument (fetched : Outcome HttpResponse) : Outcome Json :=
  match respond fetched with
  | Resolved promise => promise
  | Failed e =>
      Failed (rethrow "Upload failed - please check your connection and try again" e)
  end.

End Client.

(** *** Polling *)

Inductive PollResult : Type :=
| Polled (document : Doc.DocumentResponse)
| PollFailed (e : Thrown)
| PollOutOfFuel.

(** [status === "completed" || status === "error"]. *)
Definition settled (document : Doc.DocumentResponse) : bool :=
  String.eqb (Doc.status document) "completed"
  || String.eqb (Doc.status document) "error".

Section Poll.

(** The outcome of the [k]-th call of [getDocument], counted from 0. *)
Variable getDocument : nat -> Outcome Doc.DocumentResponse.
Variable maxAttempts : Z.

(** [while (attempts < maxAttempts) { ... attempts++ }], then the
    time-out; with the result, the number of calls of [getDocument] made.
    Each pass makes one call, so the pass with counter [attempts] makes
    call number [attempts]. *)
Fixpoint pollLoop (fuel : nat) (attempts : Z) : PollResult * nat :=
  if attempts <? maxAttempts then
    match fuel with
    | O => (PollOutOfFuel, Z.to_nat attempts)
    | S fuel' =>
        match getDocument (Z.to_nat attempts) with
        | Failed e => (PollFailed e, S (Z.to_nat attempts))
        | Resolved document =>
            if settled document then (Polled document, S (Z.to_nat attempts))
            else pollLoop fuel' (attempts + 1)
        end
    end
  else
    (PollFailed
       (ErrorObject "Processing timeout - document did not complete in time"),
     Z.to_nat attempts).

Definition pollProcessingStatus : PollResult * nat :=
  pollLoop (Z.to_nat maxAttempts) 0.

End Poll.

End Api.

(** ** App *)

Module App.

(** [Boolean(doc.data)]. *)
Definition hasData (doc : Doc.DocumentResponse) : bool :=
  match Doc.data doc with Some _ => true | None => false end.

Definition completedWithData (doc : Doc.DocumentResponse) : bool :=
  String.eqb (Doc.status doc) "completed" && hasData doc.

(** The document the auto-show effect picks: [documents.find(completed
    with data) || documents.find(with data) || documents[0]]. *)
Definition docToShow (documents : list Doc.DocumentResponse)
  : option Doc.DocumentResponse :=
  match find completedWithData documents with
  | Some doc => Some doc
  | None =>
      match find hasData documents with
      | Some doc => Some doc
      | None => nth_error documents 0
      end
  end.

(** [prev && prev.startsWith("blob:")]. *)
Definition isBlob (prev : option string) : bool :=
  match prev with
  | Some p => Upload.truthy p && String.prefix "blob:" p
  | None => false
  end.

(** The URL to revoke for a value of [resultsImageUrl]: the value itself
    when it is a "blob:" URL, nothing otherwise. *)
Definition blobOf (url : option string) : list string :=
  match url with
  | Some p => if isBlob url then [p] else []
  | None => []
  end.

(** What the App gives back to the platform: an object URL revoked by the
    updater of [updateResultsImage], an object URL revoked by the cleanup
    of the effect on [pollingInterval] and [resultsImageUrl], a timer
    cleared by that cleanup. *)
Inductive Release : Type :=
| RevokedByUpdater (url : string)
| RevokedByCleanup (url : string)
| ClearedInterval (id : Z).

(** The two states the effect depends on, and everything released so
    far, in order. *)
Record Held : Type :=
  { resultsImageUrl : option string;
    pollingInterval : option Z;
    released : list Release }.

(** [updateResultsImage(newUrl)]: the updater revokes the previous value
    when it is a "blob:" URL, and returns the new one. Each updater is
    run once. *)
Definition updateResultsImage (s : Held) (newUrl : option string) : Held :=
  {| resultsImageUrl := newUrl;
     pollingInterval := pollingInterval s;
     released :=
       (released s ++ map RevokedByUpdater (blobOf (resultsImageUrl s)))%list |}.

(** A state update queued for the next render. *)
Inductive Update : Type :=
| UpdateResultsImage (newUrl : option string)
| SetPollingInterval (value : option Z).

Definition update (s : Held) (u : Update) : Held :=
  match u with
  | UpdateResultsImage newUrl => updateResultsImage s newUrl
  | SetPollingInterval value =>
      {| resultsImageUrl := resultsImageUrl s;
         pollingInterval := value;
         released := released s |}
  end.

(** The cleanup returned by the effect, which holds the values of the
    render in which the effect ran: it clears a timer id that is truthy and
    revokes a "blob:" URL. *)
Definition cleanup (pollingInterval : option Z)
  (resultsImageUrl : option string) : list Release :=
  (match pollingInterval with
   | Some id => if id =? 0 then [] else [ClearedInterval id]
   | None => []
   end
   ++ map RevokedByCleanup (blobOf resultsImageUrl))%list.

(** Equality of the dependency [pollingInterval] between renders. *)
Definition sameInterval (a b : option Z) : bool :=
  match a, b with
  | None, None => true
  | Some x, Some y => x =? y
  | _, _ => false
  end.

(** One render: the updates queued since the last one run in order; when
    either dependency of the effect has changed, React runs the cleanup
    of the previous render before it runs the effect again. *)
Definition render (s : Held) (updates : list Update) : Held :=
  let s' := fold_left update updates s in
  if sameInterval (pollingInterval s) (pollingInterval s')
     && sameUrl (resultsImageUrl s) (resultsImageUrl s')
  then s'
  else
    {| resultsImageUrl := resultsImageUrl s';
       pollingInterval := pollingInterval s';
       released :=
         (released s' ++ cleanup (pollingInterval s) (resultsImageUrl s))%list |}.

(** What the unmount releases: the cleanup of the last render. *)
Definition unmount (s : Held) : list Release :=
  cleanup (pollingInterval s) (resultsImageUrl s).

(** The App after its first render, and after a sequence of renders. *)
Definition mounted : Held :=
  {| resultsImageUrl := None; pollingInterval := None; released := [] |}.

Definition renders (batches : list (list Update)) : Held :=
  fold_left render batches mounted.

(** The values given to [updateResultsImage] in a sequence of renders,
    and the URLs the updater revoked according to a log. *)
Definition imagesOf (batches : list (list Update)) : list (option string) :=
  flat_map
    (fun u => match u with UpdateResultsImage newUrl => [newUrl] | _ => [] end)
    (List.concat batches).

Definition updaterRevoked (log : list Release) : list string :=
  flat_map (fun r => match r with RevokedByUpdater u => [u] | _ => [] end) log.

(** [extractedTextPreview]: nothing for a missing or empty text, the text
    itself up to 320 characters, else its first 320 characters and
    three dots. *)
Definition extractedTextPreview (text : option string) : option string :=
  match text with
  | None => None
  | Some text =>
      if Upload.truthy text then
        Some (if (320 <? String.length text)%nat
              then String.substring 0 320 text ++ "..."
              else text)
      else None
  end.

End App.

(** ** Document history *)

Module History.

Section Filter.

(** [String.prototype.toLowerCase]. *)
Variable toLowerCase : string -> string.

(** [s.includes(q)]. *)
Definition includes (s q : string) : bool :=
  match String.index 0 q s with Some _ => true | None => false end.

(** [value?.toLowerCase().includes(q)], false for a missing value. *)
Definition mentions (value : option string) (q : string) : bool :=
  match value with
  | Some v => includes (toLowerCase v) q
  | None => false
  end.

Definition documentType (doc : Doc.DocumentResponse) : option string :=
  match Doc.data doc with
  | Some data => Doc.document_type data
  | None => None
  end.

(** [value === filter] for an optional string. *)
Definition isType (value : option string) (filter : string) : bool :=
  match value with
  | Some v => String.eqb v filter
  | None => false
  end.

Definition matches (searchQuery filterType filterStatus : string)
  (doc : Doc.DocumentResponse) : bool :=
  let matchesSearch :=
    String.eqb searchQuery EmptyString
    || mentions (Doc.source_file doc) (toLowerCase searchQuery)
    || mentions (documentType doc) (toLowerCase searchQuery)
    || includes (toLowerCase (Doc.id doc)) (toLowerCase searchQuery) in
  let matchesType :=
    String.eqb filterType "all" || isType (documentType doc) filterType in
  let matchesStatus :=
    String.eqb filterStatus "all" || String.eqb (Doc.status doc) filterStatus in
  matchesSearch && matchesType && matchesStatus.

Definition filteredDocuments (documents : list Doc.DocumentResponse)
  (searchQuery filterType filterStatus : string) : list Doc.DocumentResponse :=
  filter (matches searchQuery filterType filterStatus) documents.

End Filter.

(** [types.add(t)] on a [Set], kept in insertion order. *)
Definition setAdd (types : list string) (t : string) : list string :=
  if existsb (String.eqb t) types then types else (types ++ [t])%list.

(** The types offered by the type filter: [Array.from] of the set of the
    non-empty document types. *)
Definition documentTypes (documents : list Doc.DocumentResponse) : list string :=
  fold_left
    (fun types doc =>
       match documentType doc with
       | Some t => if Upload.truthy t then setAdd types t else types
       | None => types
       end)
    documents [].

End History.

(** ** Sample data *)

(** The selection is empty or a file that passed [validateFile]. *)
Definition selectionValid (s : Upload.State) : Prop :=
  forall file, Upload.selectedFile s = Some file ->
               fst (Upload.validateFile file) = true.

(** A 2 kB JPEG file. *)
Definition sampleFile : Upload.File :=
  {| Upload.name := "id.jpg"; Upload.type := "image/jpeg"; Upload.size := 2048 |}.

(** [unsettledUntil getDocument a k]: the calls number [a] up to [k - 1]
    of [getDocument] all resolve to a document that is neither completed
    nor in error. *)
Definition unsettledUntil (getDocument : nat -> Api.Outcome Doc.DocumentResponse)
  (a k : Z) : Prop :=
  forall j, a <= j < k ->
    exists document,
      getDocument (Z.to_nat j) = Api.Resolved document /\
      Api.settled document = false.

Definition timeoutError : Api.Thrown :=
  Api.ErrorObject "Processing timeout - document did not complete in time".

(** A document with the given id and status, without extraction data. *)
Definition sampleDocument (id status : string) : Doc.DocumentResponse :=
  {| Doc.id := id; Doc.status := status; Doc.data := None;
     Doc.image_preview := None; Doc.error := None; Doc.source_file := None |}.

(** A server that answers "processing" twice and "completed" from then on. *)
Definition sampleServer (k : nat) : Api.Outcome Doc.DocumentResponse :=
  Api.Resolved
    (sampleDocument "doc-1" (if Nat.ltb k 2 then "processing" else "completed")).

(** The blob URLs among a sequence of values of [resultsImageUrl]. *)
Definition blobsOf (urls : list (option string)) : list string :=
  flat_map App.blobOf urls.

(** [firstWhere p x l]: [x] is the first element of [l] that satisfies
    [p]. *)
Definition firstWhere {A : Type} (p : A -> bool) (x : A) (l : list A) : Prop :=
  exists before after,
    l = (before ++ x :: after)%list /\ p x = true /\
    Forall (fun y => p y = false) before.

(** SOI, then a COM segment whose length field is 0, then more bytes. *)
Definition zeroLengthJpeg : ArrayBuffer :=
  bytesOfZ [0xff; 0xd8; 0xff; 0xfe; 0x00; 0x00; 0xff; 0xe1; 0x00; 0x10].

(** * Properties *)

Section ScannerFacts.

Variable view : ArrayBuffer.

Lemma Some_inj (A : Type) (a b : A) : Some a = Some b -> a = b.
Proof. congruence. Qed.

Lemma byteAt_range (i : Z) : 0 <= byteAt view i < 256.
Proof.
  unfold byteAt.
  pose proof (Byte.to_N_bounded (nth (Z.to_nat i) view x00)).
  lia.
Qed.

Lemma getUint16_Some (off : Z) (l : bool) (v : Z) :
  getUint16 view off l = Some v ->
  0 <= off /\ off + 2 <= byteLength view /\ 0 <= v < 65536.
Proof.
  unfold getUint16, inRange.
  destruct (0 <=? off) eqn:H0; destruct (off + 2 <=? byteLength view) eqn:H1;
    cbn [andb]; try discriminate.
  intros H; apply Some_inj in H; subst v.
  apply Z.leb_le in H0, H1.
  pose proof (byteAt_range off); pose proof (byteAt_range (off + 1)).
  destruct l; lia.
Qed.

Lemma getUint32_Some (off : Z) (l : bool) (v : Z) :
  getUint32 view off l = Some v ->
  0 <= off /\ off + 4 <= byteLength view /\ 0 <= v < 4294967296.
Proof.
  unfold getUint32, inRange.
  destruct (0 <=? off) eqn:H0; destruct (off + 4 <=? byteLength view) eqn:H1;
    cbn [andb]; try discriminate.
  intros H; apply Some_inj in H; subst v.
  apply Z.leb_le in H0, H1.
  pose proof (byteAt_range off); pose proof (byteAt_range (off + 1)).
  pose proof (byteAt_range (off + 2)); pose proof (byteAt_range (off + 3)).
  destruct l; lia.
Qed.

Lemma getUint16_None (off : Z) (l : bool) :
  getUint16 view off l = None -> off < 0 \/ byteLength view < off + 2.
Proof.
  unfold getUint16, inRange.
  destruct (0 <=? off) eqn:H0; destruct (off + 2 <=? byteLength view) eqn:H1;
    cbn [andb]; try discriminate; intros _.
  - apply Z.leb_gt in H1; lia.
  - apply Z.leb_gt in H0; lia.
  - apply Z.leb_gt in H0; lia.
Qed.

Lemma getUint32_None (off : Z) (l : bool) :
  getUint32 view off l = None -> off < 0 \/ byteLength view < off + 4.
Proof.
  unfold getUint32, inRange.
  destruct (0 <=? off) eqn:H0; destruct (off + 4 <=? byteLength view) eqn:H1;
    cbn [andb]; try discriminate; intros _.
  - apply Z.leb_gt in H1; lia.
  - apply Z.leb_gt in H0; lia.
  - apply Z.leb_gt in H0; lia.
Qed.

End ScannerFacts.

(** Case analysis along the control flow of [body] and [forTags]: split the
    next test or getter call, then turn what was learnt into arithmetic. *)
Ltac flow_split :=
  match goal with
  | |- context [match getUint16 ?v ?o ?l with _ => _ end] =>
      let E := fresh "Eget" in destruct (getUint16 v o l) eqn:E
  | |- context [match getUint32 ?v ?o ?l with _ => _ end] =>
      let E := fresh "Eget" in destruct (getUint32 v o l) eqn:E
  | |- context [if ?c then _ else _] =>
      let E := fresh "Etest" in destruct c eqn:E
  end.

Ltac flow_facts :=
  repeat match goal with
    | H : getUint16 _ _ _ = Some _ |- _ => apply getUint16_Some in H
    | H : getUint32 _ _ _ = Some _ |- _ => apply getUint32_Some in H
    | H : getUint16 _ _ _ = None |- _ => apply getUint16_None in H
    | H : getUint32 _ _ _ = None |- _ => apply getUint32_None in H
    | H : (_ >? _) = true |- _ => apply Z.gtb_lt in H
    | H : (_ >? _) = false |- _ => rewrite Z.gtb_ltb, Z.ltb_ge in H
    | H : (_ <? _) = true |- _ => apply Z.ltb_lt in H
    | H : (_ <? _) = false |- _ => apply Z.ltb_ge in H
    | H : negb _ = true |- _ => apply negb_true_iff in H
    | H : negb _ = false |- _ => apply negb_false_iff in H
    | H : (_ =? _) = true |- _ => apply Z.eqb_eq in H
    | H : (_ =? _) = false |- _ => apply Z.eqb_neq in H
    end.

Section ScannerSafety.

Variable view : ArrayBuffer.

(** The entry loop never makes a getter throw. *)
Lemma forTags_no_raise (offset : Z) (little : bool) (n : nat) :
  0 <= offset -> forall i, 0 <= i ->
  forTags view offset little n i <> ForRaise.
Proof.
  intros Hoff. induction n as [|n IH]; intros i Hi; simpl.
  - discriminate.
  - cbv zeta. repeat flow_split; try discriminate; flow_facts; try lia.
    apply IH; lia.
Qed.

(** One pass of the marker loop never makes a getter throw. *)
Lemma body_no_raise (offset : Z) : 0 <= offset -> body view offset <> Raise.
Proof.
  intros Hoff. unfold body. cbv zeta.
  repeat flow_split; try discriminate; flow_facts; try lia.
  all: match goal with
       | |- context [forTags ?v ?o ?l ?n ?i] =>
           pose proof (forTags_no_raise o l n ltac:(lia) i ltac:(lia));
           destruct (forTags v o l n i); congruence
       end.
Qed.

(** A pass that goes on to a further iteration has moved the offset
    forward by two bytes at least. *)
Lemma body_advances (offset offset' : Z) :
  body view offset = Continue offset' -> offset + 2 <= offset'.
Proof.
  unfold body. cbv zeta.
  repeat flow_split; try discriminate; flow_facts;
    try (intros H; injection H as <-; lia).
  all: destruct (forTags _ _ _ _ _); try discriminate;
    intros H; injection H as <-; lia.
Qed.

End ScannerSafety.

Section ScannerLoop.

Variable view : ArrayBuffer.

Let length : Z := byteLength view.

Lemma scan_past_end (fuel : nat) (offset : Z) :
  length <= offset -> scan view fuel offset = Value (-1).
Proof.
  intros H. apply Z.ltb_ge in H.
  destruct fuel; simpl; fold length; rewrite H; reflexivity.
Qed.

Lemma scan_unfold (fuel : nat) (offset : Z) :
  offset < length ->
  scan view (S fuel) offset =
    match body view offset with
    | Return v => Value v
    | Break => Value (-1)
    | Continue offset' => scan view fuel offset'
    | Raise => RangeError
    end.
Proof.
  intros H. apply Z.ltb_lt in H. simpl. fold length. rewrite H. reflexivity.
Qed.

(** With a budget of one pass per two remaining bytes the loop finishes,
    and it finishes with a number. *)
Lemma scan_value (fuel : nat) :
  forall offset, 0 <= offset -> length <= offset + 2 * Z.of_nat fuel ->
  exists v, scan view fuel offset = Value v.
Proof.
  induction fuel as [|fuel IH]; intros offset H0 Hlen.
  - exists (-1). apply scan_past_end. lia.
  - destruct (Z.lt_ge_cases offset length) as [Hlt|Hge].
    + rewrite scan_unfold by assumption.
      pose proof (body_no_raise view offset H0) as Hr.
      pose proof (body_advances view offset) as Ha.
      destruct (body view offset) as [v| |offset'|]; eauto; [|congruence].
      specialize (Ha offset' eq_refl). apply IH; lia.
    + exists (-1). apply scan_past_end. assumption.
Qed.

(** Passes beyond that budget are never used. *)
Lemma scan_fuel_indep (fuel : nat) :
  forall offset k, length <= offset + 2 * Z.of_nat fuel ->
  scan view (fuel + k) offset = scan view fuel offset.
Proof.
  induction fuel as [|fuel IH]; intros offset k Hlen.
  - rewrite !scan_past_end by lia. reflexivity.
  - destruct (Z.lt_ge_cases offset length) as [Hlt|Hge].
    + change (S fuel + k)%nat with (S (fuel + k)).
      rewrite !scan_unfold by assumption.
      pose proof (body_advances view offset) as Ha.
      destruct (body view offset) as [v| |offset'|]; try reflexivity.
      specialize (Ha offset' eq_refl). apply IH; lia.
    + rewrite !scan_past_end by assumption. reflexivity.
Qed.

Lemma scan_fuel_any (f g : nat) (offset : Z) :
  length <= offset + 2 * Z.of_nat f ->
  length <= offset + 2 * Z.of_nat g ->
  scan view f offset = scan view g offset.
Proof.
  intros Hf Hg.
  rewrite <- (scan_fuel_indep f offset g Hf).
  rewrite <- (scan_fuel_indep g offset f Hg).
  f_equal. lia.
Qed.

Lemma length_nonneg : 0 <= length.
Proof. unfold length, byteLength. lia. Qed.

Lemma budget_enough : length <= 2 + 2 * Z.of_nat (Z.to_nat (length / 2)).
Proof.
  pose proof length_nonneg.
  rewrite Z2Nat.id by (apply Z.div_pos; lia).
  pose proof (Z.mod_pos_bound length 2 ltac:(lia)).
  pose proof (Z.div_mod length 2 ltac:(lia)). lia.
Qed.

Lemma reaches_ge (offset : Z) : reaches view offset -> 2 <= offset.
Proof.
  induction 1 as [|o o' _ IH _ Hb]; [lia|].
  apply body_advances in Hb. lia.
Qed.

(** What the loop computes from a reached offset is what the whole scan
    computes. *)
Lemma scan_reaches (offset : Z) :
  reaches view offset ->
  forall fuel, length <= offset + 2 * Z.of_nat fuel ->
  scan view fuel offset = scan view (Z.to_nat (length / 2)) 2.
Proof.
  induction 1 as [|o o' Hr IH Hlt Hb]; intros fuel Hlen.
  - apply scan_fuel_any; [assumption | apply budget_enough].
  - pose proof (body_advances view o o' Hb) as Ha.
    pose proof length_nonneg. pose proof (reaches_ge o Hr).
    rewrite <- (IH (S (fuel + Z.to_nat length))) by lia.
    rewrite scan_unfold by assumption. rewrite Hb.
    symmetry. apply scan_fuel_indep. assumption.
Qed.

(** With the start-of-image marker in place the result is that of the
    marker loop. *)
Lemma readExifOrientation_soi :
  getUint16 view 0 false = Some 0xffd8 ->
  readExifOrientation view = scan view (Z.to_nat (length / 2)) 2.
Proof.
  intros Hsoi. unfold readExifOrientation. fold length.
  pose proof Hsoi as Hr. apply getUint16_Some in Hr.
  destruct (length <? 2) eqn:E.
  - apply Z.ltb_lt in E. unfold length in E. lia.
  - rewrite Hsoi. reflexivity.
Qed.

(** A pass that ends in [break] ends the scan with -1. *)
Lemma reaches_break (offset : Z) :
  getUint16 view 0 false = Some 0xffd8 ->
  reaches view offset -> body view offset = Break ->
  readExifOrientation view = Value (-1).
Proof.
  intros Hsoi Hr Hb. rewrite readExifOrientation_soi by assumption.
  pose proof length_nonneg. pose proof (reaches_ge offset Hr).
  rewrite <- (scan_reaches offset Hr (S (Z.to_nat length))) by lia.
  destruct (Z.lt_ge_cases offset length) as [Hlt|Hge].
  - rewrite scan_unfold by assumption. rewrite Hb. reflexivity.
  - apply scan_past_end. assumption.
Qed.

End ScannerLoop.

Ltac norm_offsets o :=
  try replace (o + 2 + 2) with (o + 4) by lia;
  try replace (o + 4 + 6) with (o + 10) by lia;
  try replace (o + 10 + 4) with (o + 14) by lia.

Section Truncation.

Variable view : ArrayBuffer.

Lemma body_cutOff (offset : Z) : cutOffAt view offset -> body view offset = Break.
Proof.
  intros [H | Hm H | Hm Hs H | order tiffOffset Hm Hs Ho Ht H];
    unfold body; cbv zeta; norm_offsets offset.
  - apply Z.gtb_lt in H. rewrite H. reflexivity.
  - rewrite Hm. change (0xffe1 =? 0xffe1) with true. cbv iota.
    repeat flow_split; try reflexivity; flow_facts; lia.
  - rewrite Hm, Hs. change (0xffe1 =? 0xffe1) with true.
    change (negb (0x45786966 =? 0x45786966)) with false. cbv iota.
    repeat flow_split; try reflexivity; flow_facts; lia.
  - rewrite Hm, Hs, Ho, Ht. change (0xffe1 =? 0xffe1) with true.
    change (negb (0x45786966 =? 0x45786966)) with false. cbv iota.
    repeat flow_split; try reflexivity; flow_facts; lia.
Qed.

Lemma body_atIfd (offset entries : Z) (little : bool) (tags : Z) :
  atIfd view offset entries little tags ->
  body view offset =
    match forTags view entries little (Z.to_nat tags) 0 with
    | Found v => Return v
    | Exhausted | CutOff => Continue entries
    | ForRaise => Raise
    end.
Proof.
  intros (order & tiffOffset & Hm & Hs & Ho & -> & Ht & -> & Hn).
  unfold body; cbv zeta; norm_offsets offset.
  rewrite Hm, Hs, Ho, Ht, Hn. change (0xffe1 =? 0xffe1) with true.
  change (negb (0x45786966 =? 0x45786966)) with false. cbv iota.
  repeat flow_split; try reflexivity; flow_facts; lia.
Qed.

(** A pass that starts on two bytes that are no [0xFFxx] marker, or with
    fewer than four bytes left, ends in [break]. *)
Lemma body_no_marker (offset : Z) :
  (byteLength view < offset + 4 \/
   exists m, getUint16 view offset false = Some m /\ Z.land m 0xff00 <> 0xff00) ->
  body view offset = Break.
Proof.
  intros [H | (m & Hm & Hland)]; unfold body; cbv zeta.
  - apply Z.gtb_lt in H. rewrite H. reflexivity.
  - rewrite Hm. destruct (offset + 4 >? byteLength view); [reflexivity|].
    destruct (m =? 0xffe1) eqn:E.
    + apply Z.eqb_eq in E. subst m. exfalso. apply Hland. reflexivity.
    + apply Z.eqb_neq in Hland. rewrite Hland. reflexivity.
Qed.

End Truncation.

(** ** The scanner: theorems *)

(** C3. [orientationToDegrees] sends tag 3 to 180, tag 6 to 90, tag 8 to 270
    and every other integer to 0; among those, 1, the mirrored tags 2, 4, 5
    and 7, and the "not found" value -1. *)
Theorem orientationToDegrees_table :
  orientationToDegrees 3 = 180 /\
  orientationToDegrees 6 = 90 /\
  orientationToDegrees 8 = 270 /\
  (forall o : Z, o <> 3 -> o <> 6 -> o <> 8 -> orientationToDegrees o = 0) /\
  Forall (fun o => orientationToDegrees o = 0) [1; 2; 4; 5; 7; -1].
Proof.
  repeat split; try reflexivity.
  - intros o H3 H6 H8. unfold orientationToDegrees.
    destruct o as [|p|p]; try reflexivity.
    do 4 (try destruct p as [p|p|]); try reflexivity; congruence.
  - repeat constructor.
Qed.

(** C1 (the code at well-formed input). For each orientation value 1..8 and
    for both byte orders, the minimal EXIF JPEG [exifJpeg little V] stores
    orientation [V] where the TIFF layout prescribes it (IFD0 at the header's
    offset counted from the TIFF header start), and [readExifOrientation]
    returns -1 on it instead of [V]: after reading the IFD0 offset the code
    moves on by that offset plus 8, so it looks for IFD0 eight bytes too
    far. *)
Theorem readExifOrientation_misses_ifd0 :
  Forall
    (fun '(little, V) =>
       validExifJpeg (exifJpeg little V) little V = true /\
       readExifOrientation (exifJpeg little V) = Value (-1))
    (list_prod [true; false] [1; 2; 3; 4; 5; 6; 7; 8]).
Proof.
  repeat (constructor; [split; vm_compute; reflexivity|]).
  constructor.
Qed.

(** C10. Every pass of the marker loop that does not return or break moves
    the offset on by at least 2: a non-EXIF APP1 segment by
    [exifLength + 2], any other segment by [size + 2]. Hence
    [byteLength / 2] passes always suffice: with that budget the loop of
    [readExifOrientation] finishes, and a larger budget changes nothing. *)
Theorem scan_terminates (view : ArrayBuffer) :
  (forall offset offset',
     body view offset = Continue offset' -> offset + 2 <= offset') /\
  (forall offset exifLength signature,
     getUint16 view offset false = Some 0xffe1 ->
     getUint16 view (offset + 2) false = Some exifLength ->
     getUint32 view (offset + 4) false = Some signature ->
     signature <> 0x45786966 ->
     body view offset = Continue (offset + (exifLength + 2)) /\
     2 <= exifLength + 2) /\
  (forall offset marker size,
     getUint16 view offset false = Some marker ->
     marker <> 0xffe1 -> Z.land marker 0xff00 = 0xff00 ->
     getUint16 view (offset + 2) false = Some size ->
     body view offset = Continue (offset + (size + 2)) /\
     2 <= size + 2) /\
  scan view (Z.to_nat (byteLength view / 2)) 2 <> OutOfFuel /\
  (forall fuel, (Z.to_nat (byteLength view / 2) <= fuel)%nat ->
     scan view fuel 2 = scan view (Z.to_nat (byteLength view / 2)) 2).
Proof.
  split; [exact (body_advances view)|].
  split; [|split; [|split]].
  - intros offset exifLength signature Hm Hl Hs Hne.
    unfold body; cbv zeta; norm_offsets offset.
    rewrite Hm, Hl, Hs. change (0xffe1 =? 0xffe1) with true. cbv iota.
    apply Z.eqb_neq in Hne. rewrite Hne. cbn [negb].
    flow_facts. split; [|lia].
    repeat flow_split; flow_facts; try lia.
    f_equal. lia.
  - intros offset marker size Hm Hne Hff Hs.
    unfold body; cbv zeta. rewrite Hm, Hs.
    apply Z.eqb_neq in Hne. rewrite Hne.
    apply Z.eqb_eq in Hff. rewrite Hff. cbn [negb].
    flow_facts. split; [|lia].
    repeat flow_split; flow_facts; try lia.
    f_equal. lia.
  - destruct (scan_value view (Z.to_nat (byteLength view / 2)) 2) as [v Hv];
      [lia | apply budget_enough |].
    rewrite Hv. discriminate.
  - intros fuel Hfuel.
    replace fuel
      with (Z.to_nat (byteLength view / 2)
            + (fuel - Z.to_nat (byteLength view / 2)))%nat by lia.
    apply scan_fuel_indep. apply budget_enough.
Qed.

(** C10 at the sample buffer [plainJpeg]: its COM segment of size 4 moves
    the scan from offset 2 to offset 8. *)
Lemma scan_terminates_witness :
  body plainJpeg 2 = Continue 8 /\ 2 + 2 <= 8.
Proof.
  split.
  - reflexivity.
  - apply (proj1 (scan_terminates plainJpeg) 2 8). reflexivity.
Defined.

(** On every buffer the scanner returns a number. *)
Lemma readExifOrientation_value (view : ArrayBuffer) :
  exists v, readExifOrientation view = Value v.
Proof.
  unfold readExifOrientation.
  destruct (byteLength view <? 2) eqn:Hlen; [eauto|].
  destruct (getUint16 view 0 false) as [soi|] eqn:Hsoi.
  - destruct (negb (soi =? 0xffd8)); [eauto|].
    apply scan_value; [lia | apply budget_enough].
  - apply getUint16_None in Hsoi. apply Z.ltb_ge in Hlen. lia.
Qed.

(** X21. On every buffer [readExifOrientation] returns a number: no
    DataView getter is ever called outside the buffer, so none throws, and
    the marker loop ends. It returns -1 when the buffer does not start
    with 0xFFD8, and when, in some pass of the marker loop, the buffer ends
    before the marker and segment length, the EXIF signature, the TIFF
    header or the IFD entry count. *)
Theorem readExifOrientation_safe (view : ArrayBuffer) :
  (exists v, readExifOrientation view = Value v) /\
  (getUint16 view 0 false <> Some 0xffd8 ->
   readExifOrientation view = Value (-1)) /\
  (forall offset,
     getUint16 view 0 false = Some 0xffd8 ->
     reaches view offset -> cutOffAt view offset ->
     readExifOrientation view = Value (-1)).
Proof.
  split; [|split].
  - apply readExifOrientation_value.
  - intros Hsoi. unfold readExifOrientation.
    destruct (byteLength view <? 2) eqn:Hlen; [reflexivity|].
    destruct (getUint16 view 0 false) as [soi|] eqn:Hget.
    + destruct (soi =? 0xffd8) eqn:E; [|reflexivity].
      apply Z.eqb_eq in E. congruence.
    + apply getUint16_None in Hget. apply Z.ltb_ge in Hlen. lia.
  - intros offset Hsoi Hr Hcut.
    apply (reaches_break view offset Hsoi Hr). apply body_cutOff, Hcut.
Qed.

(** X21 at sample buffers: [plainJpeg] without its first byte does not
    start with SOI, and [cutHeaderJpeg] ends inside the TIFF header. *)
Lemma readExifOrientation_safe_witness :
  readExifOrientation (tl plainJpeg) = Value (-1) /\
  readExifOrientation cutHeaderJpeg = Value (-1).
Proof.
  split.
  - apply (proj1 (proj2 (readExifOrientation_safe (tl plainJpeg)))).
    discriminate.
  - apply (proj2 (proj2 (readExifOrientation_safe cutHeaderJpeg)) 2).
    + reflexivity.
    + constructor.
    + apply cut_tiff_header; [reflexivity | reflexivity | vm_compute; reflexivity].
Defined.

(** C4 (the code at an IFD cut off within its entries). [nestedCutOff]
    starts with SOI, its first pass reaches the entry loop of an EXIF
    segment announcing 3 entries, and the buffer ends within the third
    entry; yet [readExifOrientation] returns 6 on it, not -1. The cause, on
    every buffer: where the buffer ends before the marker, the signature,
    the TIFF header or the entry count, the guard ends the scan, but the
    guard inside the entry loop leaves that loop only, and the pass goes
    on to the next one at the first entry. *)
Theorem readExifOrientation_cut_entries_found :
  (getUint16 nestedCutOff 0 false = Some 0xffd8 /\
   reaches nestedCutOff 2 /\
   atIfd nestedCutOff 2 22 false 3 /\
   forTags nestedCutOff 22 false 3 0 = CutOff /\
   readExifOrientation nestedCutOff = Value 6 /\
   readExifOrientation nestedCutOff <> Value (-1)) /\
  (forall view offset, cutOffAt view offset -> body view offset = Break) /\
  (forall view offset entries little tags,
     atIfd view offset entries little tags ->
     forTags view entries little (Z.to_nat tags) 0 = CutOff ->
     body view offset = Continue entries).
Proof.
  split; [|split].
  - split; [reflexivity|].
    split; [constructor|].
    split; [exists 0x4d4d, 0; repeat split; reflexivity|].
    split; [reflexivity|].
    split; [vm_compute; reflexivity | vm_compute; discriminate].
  - intros view offset Hcut. apply body_cutOff, Hcut.
  - intros view offset entries little tags Hifd Hcut.
    pose proof (body_atIfd view offset entries little tags Hifd) as Hb.
    rewrite Hcut in Hb. exact Hb.
Qed.

Lemma rotationNormalsed_range (imageRotation : Z) :
  0 <= rotationNormalsed imageRotation < 360.
Proof.
  unfold rotationNormalsed.
  pose proof (Z.rem_bound_abs imageRotation 360 ltac:(lia)) as Hb.
  change (Z.abs 360) with 360 in Hb.
  assert (0 <= Z.rem imageRotation 360 + 360) by lia.
  pose proof (Z.rem_bound_pos (Z.rem imageRotation 360 + 360) 360
                ltac:(lia) ltac:(lia)).
  lia.
Qed.

(** C6. The normalised rotation lies in [0,360). When it is a multiple of
    180 the rotated bounding box used for display is (W,H); when it is 90
    or 270 (indeed whenever it is no multiple of 180) it is (H,W). *)
Theorem rotated_size_swaps (W H : float) (imageRotation : Z) :
  let img := {| width := W; height := H |} in
  let r := rotationNormalsed imageRotation in
  0 <= r < 360 /\
  (r mod 180 = 0 ->
   (rotatedWidth img imageRotation, rotatedHeight img imageRotation) = (W, H)) /\
  (r = 90 \/ r = 270 ->
   (rotatedWidth img imageRotation, rotatedHeight img imageRotation) = (H, W)) /\
  (r mod 180 <> 0 ->
   (rotatedWidth img imageRotation, rotatedHeight img imageRotation) = (H, W)).
Proof.
  intros img r.
  pose proof (rotationNormalsed_range imageRotation) as Hr. fold r in Hr.
  assert (Hrem : Z.rem r 180 = r mod 180) by (apply Z.rem_mod_nonneg; lia).
  assert (Hup : r mod 180 = 0 -> isUpright imageRotation = true).
  { intros H0. unfold isUpright. fold r. rewrite Hrem, H0. reflexivity. }
  assert (Hside : r mod 180 <> 0 -> isUpright imageRotation = false).
  { intros H0. unfold isUpright. fold r. rewrite Hrem.
    apply Z.eqb_neq. exact H0. }
  split; [exact Hr|]. unfold rotatedWidth, rotatedHeight.
  split; [|split].
  - intros H0. rewrite (Hup H0). reflexivity.
  - intros H0. rewrite Hside; [reflexivity|].
    destruct H0 as [-> | ->]; discriminate.
  - intros H0. rewrite (Hside H0). reflexivity.
Qed.

(** C6 at rotations 180 and 90 of a 1000 x 800 image. *)
Lemma rotated_size_swaps_witness :
  (rotatedWidth {| width := 1000; height := 800 |} 180,
   rotatedHeight {| width := 1000; height := 800 |} 180)
  = (1000%float, 800%float) /\
  (rotatedWidth {| width := 1000; height := 800 |} 90,
   rotatedHeight {| width := 1000; height := 800 |} 90)
  = (800%float, 1000%float).
Proof.
  split.
  - apply (proj1 (proj2 (rotated_size_swaps 1000 800 180))). reflexivity.
  - apply (proj1 (proj2 (proj2 (rotated_size_swaps 1000 800 90)))).
    left. reflexivity.
Defined.

(** C5. The surface is as wide as the container and as high as the rotated
    aspect ratio makes it; when that height exceeds [maxHeight] the height
    is [maxHeight] and the width follows from the ratio; the scale factor
    is the display width over the rotated width. For a 1000 x 2000 image
    rotated by 90 degrees in a container 500 wide: the rotated box is
    2000 x 1000, the derived height 250 does not exceed 600, and the scale
    factor is 0.25. *)
Theorem displayTransform_fit (containerWidth : float) (img : Image)
  (imageRotation : Z) :
  let rw := rotatedWidth img imageRotation in
  let rh := rotatedHeight img imageRotation in
  let fitted := (containerWidth * (rh / rw))%float in
  let t := displayTransform containerWidth img imageRotation in
  ((maxHeight <? fitted)%float = false ->
   displayWidth t = containerWidth /\ displayHeight t = fitted) /\
  ((maxHeight <? fitted)%float = true ->
   displayHeight t = maxHeight /\
   displayWidth t = (maxHeight * (rw / rh))%float) /\
  scaleFactor t = (displayWidth t / rw)%float /\
  let img0 := {| width := 1000; height := 2000 |} in
  let t0 := displayTransform 500 img0 90 in
  (rotatedWidth img0 90, rotatedHeight img0 90) = (2000%float, 1000%float) /\
  (500 * (1000 / 2000))%float = 250%float /\
  (maxHeight <? 250)%float = false /\
  displayWidth t0 = 500%float /\
  displayHeight t0 = 250%float /\
  scaleFactor t0 = 0.25%float.
Proof.
  intros rw rh fitted t.
  unfold t, displayTransform. fold rw rh fitted.
  split; [|split; [|split]].
  - intros Hfit. rewrite Hfit. split; reflexivity.
  - intros Hfit. rewrite Hfit. split; reflexivity.
  - destruct (maxHeight <? fitted)%float; reflexivity.
  - cbv zeta. repeat split; vm_compute; reflexivity.
Qed.

(** C5 at a 1000 x 800 upright image in a container 1000 wide: the fitted
    height 800 exceeds 600, so the surface is 750 x 600. *)
Lemma displayTransform_fit_witness :
  displayHeight (displayTransform 1000 {| width := 1000; height := 800 |} 0)
  = 600%float /\
  displayWidth (displayTransform 1000 {| width := 1000; height := 800 |} 0)
  = 750%float.
Proof.
  apply (proj1 (proj2
    (displayTransform_fit 1000 {| width := 1000; height := 800 |} 0))).
  vm_compute. reflexivity.
Defined.

(** ** The compositor: what is drawn where *)






Lemma outlines_app (a b : list Mark) :
  outlines (a ++ b) = (outlines a ++ outlines b)%list.
Proof. apply flat_map_app. Qed.

Lemma fills_app (a b : list Mark) :
  fills (a ++ b) = (fills a ++ fills b)%list.
Proof. apply flat_map_app. Qed.


Section SurfaceFacts.

Variable measureTextWidth : string -> string -> float.
Variable numberToString : float -> string.
Variable Math_round : float -> float.
Variable toUnsignedLong : float -> float.
Variable Math_cos : float -> float.
Variable Math_sin : float -> float.
Variable isColor : string -> bool.
Variable isFont : string -> bool.

Local Abbreviation call' := (call Math_cos Math_sin isColor isFont).
Local Abbreviation exec' := (exec Math_cos Math_sin isColor isFont).
Local Abbreviation effective := (takesEffect isColor isFont).
Local Abbreviation drawBox' := (drawBox measureTextWidth numberToString Math_round).
Local Abbreviation paint' :=
  (paint measureTextWidth numberToString Math_round toUnsignedLong).
Local Abbreviation boxRect m img b :=
  {| transform := m;
     rx := (nth 0 (bbox b) nan - width img / 2)%float;
     ry := (nth 1 (bbox b) nan - height img / 2)%float;
     rw := (nth 2 (bbox b) nan - nth 0 (bbox b) nan)%float;
     rh := (nth 3 (bbox b) nan - nth 1 (bbox b) nan)%float |}.
Local Abbreviation boxOk img b :=
  (isFinite (nth 0 (bbox b) nan - width img / 2)%float
   && isFinite (nth 1 (bbox b) nan - height img / 2)%float
   && isFinite (nth 2 (bbox b) nan - nth 0 (bbox b) nan)%float
   && isFinite (nth 3 (bbox b) nan - nth 1 (bbox b) nan)%float).
Local Abbreviation boxFilled img b :=
  (boxOk img b
   && negb (nth 2 (bbox b) nan - nth 0 (bbox b) nan =? 0)%float
   && negb (nth 3 (bbox b) nan - nth 1 (bbox b) nan =? 0)%float).

Lemma exec_app (ops1 ops2 : list CanvasOp) (cv : Canvas) :
  exec' (ops1 ++ ops2) cv = exec' ops2 (exec' ops1 cv).
Proof. apply fold_left_app. Qed.

Lemma exec_cons (op : CanvasOp) (ops : list CanvasOp) (cv : Canvas) :
  exec' (op :: ops) cv = exec' ops (call' cv op).
Proof. reflexivity. Qed.

Lemma call_saved (cv : Canvas) (op : CanvasOp) :
  op <> Save -> op <> Restore -> saved (call' cv op) = saved cv.
Proof.
  intros Hs Hr. unfold call.
  destruct (effective op); [|reflexivity].
  destruct op; try reflexivity; congruence.
Qed.

Lemma call_ctm (cv : Canvas) (op : CanvasOp) :
  match op with
  | Translate _ _ | Rotate _ | Scale _ _ | Restore => False
  | _ => True
  end ->
  ctm (current (call' cv op)) = ctm (current cv).
Proof.
  intros Hop. unfold call.
  destruct (effective op); [|reflexivity].
  destruct op; try reflexivity; contradiction.
Qed.

Lemma call_current (cv : Canvas) (op : CanvasOp) :
  match op with
  | ClearRect _ _ _ _ | DrawImage _ _ | BeginPath | Rect _ _ _ _ | Stroke
  | FillRect _ _ _ _ | FillText _ _ _ => True
  | _ => False
  end ->
  current (call' cv op) = current cv.
Proof.
  intros Hop. unfold call.
  destruct (effective op); [|reflexivity].
  destruct op; try reflexivity; contradiction.
Qed.

Lemma call_marks (cv : Canvas) (op : CanvasOp) :
  exists k, marks (call' cv op) = (marks cv ++ k)%list.
Proof.
  unfold call. destruct (effective op);
    [|exists []; symmetry; apply app_nil_r].
  destruct op; cbn [perform marks];
    try (eexists; reflexivity);
    try (exists []; symmetry; apply app_nil_r).
  destruct (saved cv); exists []; symmetry; apply app_nil_r.
Qed.

Lemma exec_marks (ops : list CanvasOp) :
  forall cv, exists k, marks (exec' ops cv) = (marks cv ++ k)%list.
Proof.
  induction ops as [|op ops IH]; intros cv.
  - exists []. symmetry. apply app_nil_r.
  - rewrite exec_cons. destruct (IH (call' cv op)) as [k2 Hk2].
    destruct (call_marks cv op) as [k1 Hk1].
    exists (k1 ++ k2)%list. rewrite Hk2, Hk1. symmetry. apply app_assoc.
Qed.

Lemma call_outlines (cv : Canvas) (op : CanvasOp) :
  outlines (marks (call' cv op)) =
    (outlines (marks cv)
     ++ match op with Stroke => [path cv] | _ => [] end)%list.
Proof.
  unfold call. destruct op; cbn [takesEffect];
    try (match goal with
         | |- context [if ?g then _ else _] => destruct g
         end);
    cbn [perform marks]; rewrite ?outlines_app; cbn [outlines flat_map app];
    rewrite ?app_nil_r; try reflexivity.
  destruct (saved cv); cbn [marks]; reflexivity.
Qed.

Lemma call_fills (cv : Canvas) (op : CanvasOp) :
  fills (marks (call' cv op)) =
    (fills (marks cv)
     ++ match op with
        | FillRect x y w h =>
            if effective op
            then [ {| transform := ctm (current cv);
                      rx := x; ry := y; rw := w; rh := h |} ]
            else []
        | _ => []
        end)%list.
Proof.
  unfold call. destruct op; cbn [takesEffect];
    try (match goal with
         | |- context [if ?g then _ else _] => destruct g
         end);
    cbn [perform marks]; rewrite ?fills_app; cbn [fills flat_map app];
    rewrite ?app_nil_r; try reflexivity.
  destruct (saved cv); cbn [marks]; reflexivity.
Qed.

Lemma call_path (cv : Canvas) (op : CanvasOp) :
  path (call' cv op) =
    match op with
    | BeginPath => []
    | Rect x y w h =>
        if effective op
        then (path cv
              ++ [ {| transform := ctm (current cv);
                      rx := x; ry := y; rw := w; rh := h |} ])%list
        else path cv
    | _ => path cv
    end.
Proof.
  unfold call. destruct op; cbn [takesEffect];
    try (match goal with
         | |- context [if ?g then _ else _] => destruct g
         end);
    cbn [perform path]; try reflexivity.
  destruct (saved cv); reflexivity.
Qed.

Lemma exec_saved (ops : list CanvasOp) :
  forall cv,
    Forall (fun op => op <> Save /\ op <> Restore) ops ->
    saved (exec' ops cv) = saved cv.
Proof.
  induction ops as [|op ops IH]; intros cv Hops; [reflexivity|].
  inversion Hops as [|? ? [Hs Hr] Hrest]; subst.
  rewrite exec_cons, (IH _ Hrest). apply call_saved; assumption.
Qed.

(** One box: the transform and the saved states stay, one outline is
    stroked, of the one rectangle of the box when its numbers are finite,
    and that rectangle is filled. *)
Lemma drawBox_surface (img : Image) (s : float) (hl : option string)
  (b : BoundingBoxInfo) (cv : Canvas) :
  let cv' := exec' (drawBox' img s hl b) cv in
  let r := boxRect (ctm (current cv)) img b in
  ctm (current cv') = ctm (current cv) /\
  saved cv' = saved cv /\
  outlines (marks cv') =
    (outlines (marks cv) ++ [if boxOk img b then [r] else []])%list /\
  (exists rest,
     fills (marks cv') =
       (fills (marks cv) ++ (if boxFilled img b then [r] else []) ++ rest)%list) /\
  (exists k, marks cv' = (marks cv ++ k)%list).
Proof.
  intros cv' r. subst cv' r. split; [|split; [|split; [|split]]].
  - unfold exec, drawBox. cbv zeta. cbn [fold_left].
    repeat (rewrite call_ctm; [|exact I]). reflexivity.
  - apply exec_saved. unfold drawBox. cbv zeta.
    repeat (constructor; [split; discriminate|]). constructor.
  - unfold exec, drawBox. cbv zeta. cbn [fold_left].
    repeat (rewrite call_outlines; cbn beta iota; rewrite ?app_nil_r).
    f_equal. repeat (rewrite call_path; cbn beta iota).
    cbn [takesEffect app].
    repeat (rewrite call_ctm; [|exact I]).
    destruct (_ && _); reflexivity.
  - unfold exec, drawBox. cbv zeta. cbn [fold_left].
    repeat (rewrite call_fills; cbn beta iota; rewrite ?app_nil_r).
    rewrite <- app_assoc. eexists. f_equal. f_equal.
    cbn [takesEffect].
    repeat (rewrite call_ctm; [|exact I]).
    reflexivity.
  - apply exec_marks.
Qed.

Lemma drawBoxes_surface (img : Image) (s : float) (hl : option string)
  (boxes : list BoundingBoxInfo) :
  forall cv,
    let cv' := exec' (flat_map (drawBox' img s hl) boxes) cv in
    ctm (current cv') = ctm (current cv) /\
    saved cv' = saved cv /\
    outlines (marks cv') =
      (outlines (marks cv)
       ++ map (fun b => if boxOk img b
                        then [boxRect (ctm (current cv)) img b] else [])
            boxes)%list /\
    (forall b, In b boxes -> boxFilled img b = true ->
               In (boxRect (ctm (current cv)) img b) (fills (marks cv'))).
Proof.
  induction boxes as [|b boxes IH]; intros cv cv'; subst cv'.
  - cbn [flat_map map]. rewrite app_nil_r.
    repeat split. intros b [].
  - cbn [flat_map map]. rewrite exec_app.
    destruct (drawBox_surface img s hl b cv)
      as (Hctm & Hsaved & Hout & (rest & Hfill) & _).
    destruct (IH (exec' (drawBox' img s hl b) cv))
      as (Hctm' & Hsaved' & Hout' & Hin').
    split; [congruence|]. split; [congruence|]. split.
    + rewrite Hout', Hout, Hctm, <- app_assoc. reflexivity.
    + intros b0 [<- | Hb0] Hok.
      * destruct (exec_marks (flat_map (drawBox' img s hl) boxes)
                    (exec' (drawBox' img s hl b) cv)) as [k Hk].
        rewrite Hk, fills_app, Hfill, Hok.
        apply in_or_app. left. apply in_or_app. right. left. reflexivity.
      * rewrite <- Hctm. apply Hin'; assumption.
Qed.

(** The transform the drawing sets up from the matrix [m]. *)
Local Abbreviation active m t imageRotation :=
  (scale
     (rotate Math_cos Math_sin
        (translate m (displayWidth t / 2)%float (displayHeight t / 2)%float)
        (numberOfZ (rotationNormalsed imageRotation) * Math_PI / 180)%float)
     (scaleFactor t)%float (scaleFactor t)%float).

(** The drawing as a whole, whatever takes effect: the drawing state and
    the saved states are those before it, and one outline is stroked per
    box, of at most one rectangle. *)
Lemma paint_state (img : Image) (t : DisplayTransform) (imageRotation : Z)
  (boxes : list BoundingBoxInfo) (hl : option string) (cv : Canvas) :
  let cv' := exec' (paint' img t imageRotation boxes hl) cv in
  current cv' = current cv /\
  saved cv' = saved cv /\
  exists ps,
    outlines (marks cv') = (outlines (marks cv) ++ ps)%list /\
    List.length ps = List.length boxes /\
    Forall (fun p => (List.length p <= 1)%nat) ps.
Proof.
  intros cv'. subst cv'. unfold paint. cbv zeta.
  rewrite exec_app, exec_app.
  set (pre := exec' _ cv).
  assert (Hpre : saved pre = current cv :: saved cv /\
                 outlines (marks pre) = outlines (marks cv)).
  { subst pre. unfold exec. cbn [fold_left]. split.
    - do 4 (rewrite call_saved; [|discriminate|discriminate]).
      unfold call at 1. cbn [takesEffect perform saved].
      rewrite call_current by exact I. rewrite call_saved by discriminate.
      reflexivity.
    - repeat (rewrite call_outlines; cbn beta iota; rewrite ?app_nil_r).
      reflexivity. }
  destruct Hpre as [Hsaved Hout].
  destruct (drawBoxes_surface img (scaleFactor t) hl boxes pre)
    as (_ & Hsaved' & Hout' & _).
  set (mid := exec' (flat_map _ boxes) pre) in *.
  unfold exec. cbn [fold_left]. unfold call. cbn [takesEffect perform].
  rewrite Hsaved', Hsaved. cbn [current saved marks].
  split; [reflexivity|]. split; [reflexivity|].
  eexists. split; [rewrite Hout', Hout; reflexivity|]. split.
  - apply length_map.
  - apply Forall_forall. intros p Hp. apply in_map_iff in Hp.
    destruct Hp as (b & <- & _). destruct (_ && _); cbn [List.length]; lia.
Qed.


End SurfaceFacts.



(** C2 (the code at the claim's own example). Two clicks on the legend
    entry of "full_name", starting with nothing highlighted, leave
    "full_name" highlighted: the legend entry sets the highlight and never
    clears it. The field card of the same field does toggle. *)
Theorem legend_click_does_not_toggle :
  clicks None [LegendClick "full_name"; LegendClick "full_name"]
  = Some "full_name" /\
  (forall h f, click h (LegendClick f) = Some f) /\
  clicks None [CardClick "full_name"; CardClick "full_name"] = None.
Proof.
  split; [reflexivity|]. split; [reflexivity|]. reflexivity.
Qed.

(** C8. When the source yields no bytes -- [fetch] rejects, or resolves to a
    response that is not [ok], or a data URL has no "base64," part -- the
    loader resolves to [null] and [getImageRotationDegrees] resolves to 0;
    and on no source at all does [getImageRotationDegrees] reject. *)
Theorem getImageRotationDegrees_unavailable
  (fetch : string -> Settled Response) (atob : string -> option string)
  (imageUrl : string) :
  (String.prefix "data:" imageUrl = false /\
   (fetch imageUrl = Rejected \/
    exists response, fetch imageUrl = Fulfilled response /\ ok response = false)
   \/
   String.prefix "data:" imageUrl = true /\
   String.index 0 "base64," imageUrl = None ->
   loadImageBuffer fetch atob imageUrl = Fulfilled None /\
   getImageRotationDegrees fetch atob imageUrl = Fulfilled 0) /\
  (loadImageBuffer fetch atob imageUrl = Fulfilled None ->
   getImageRotationDegrees fetch atob imageUrl = Fulfilled 0) /\
  exists degrees, getImageRotationDegrees fetch atob imageUrl = Fulfilled degrees.
Proof.
  assert (Hnull : loadImageBuffer fetch atob imageUrl = Fulfilled None ->
                  getImageRotationDegrees fetch atob imageUrl = Fulfilled 0).
  { intros H. unfold getImageRotationDegrees. rewrite H. reflexivity. }
  split; [|split; [exact Hnull|]].
  - intros H.
    assert (Hload : loadImageBuffer fetch atob imageUrl = Fulfilled None).
    { unfold loadImageBuffer, loadImageBuffer_try.
      destruct H as [[Hp [Hf | (response & Hf & Hok)]] | [Hp Hidx]];
        rewrite Hp.
      - rewrite Hf. reflexivity.
      - rewrite Hf, Hok. reflexivity.
      - unfold dataUrlToArrayBuffer, dataUrlToArrayBuffer_try.
        rewrite Hidx. reflexivity. }
    split; [exact Hload | exact (Hnull Hload)].
  - unfold getImageRotationDegrees, loadImageBuffer.
    destruct (loadImageBuffer_try fetch atob imageUrl) as [[buffer|]|];
      eauto.
    destruct (readExifOrientation_value buffer) as [v Hv].
    rewrite Hv. eauto.
Qed.

(** C8 at a remote source whose fetch fails. *)
Lemma getImageRotationDegrees_unavailable_witness :
  getImageRotationDegrees (fun _ => Rejected) (fun _ => None)
    "https://example.org/id.jpg" = Fulfilled 0.
Proof.
  apply (proj1 (getImageRotationDegrees_unavailable
                  (fun _ => Rejected) (fun _ => None)
                  "https://example.org/id.jpg")).
  left. split; [reflexivity | left; reflexivity].
Defined.

Lemma nth_error_updateAt {A : Type} (f : A -> A) (l : list A) :
  forall i j,
    nth_error (updateAt i f l) j =
      if Nat.eqb j i then option_map f (nth_error l j) else nth_error l j.
Proof.
  induction l as [|x l IH]; intros i j.
  - replace (updateAt i f []) with (@nil A) by (destruct i; reflexivity).
    destruct (Nat.eqb j i); destruct j; reflexivity.
  - destruct i as [|i], j as [|j]; try reflexivity.
    simpl. apply IH.
Qed.

Lemma length_updateAt {A : Type} (f : A -> A) (l : list A) :
  forall i, List.length (updateAt i f l) = List.length l.
Proof.
  induction l as [|x l IH]; intros [|i]; simpl; try reflexivity.
  rewrite IH. reflexivity.
Qed.

Lemma runCleanup_length (s : Visualizer) :
  List.length (runs (runCleanup s)) = List.length (runs s).
Proof.
  unfold runCleanup. destruct (cleanup s); simpl; [|reflexivity].
  apply length_updateAt.
Qed.

Section EffectFacts.

Variable rotationDegrees : string -> Z.

Lemma runCleanup_cancels (s : Visualizer) :
  consistent rotationDegrees s ->
  cleanup (runCleanup s) = None /\
  imageRotation (runCleanup s) = imageRotation s /\
  forall i r, nth_error (runs (runCleanup s)) i = Some r -> cancelled r = true.
Proof.
  intros [Hothers Hcur _]. unfold runCleanup.
  destruct (cleanup s) as [k|] eqn:Hk; simpl.
  - split; [reflexivity|]. split; [reflexivity|].
    intros i r. rewrite nth_error_updateAt.
    destruct (Nat.eqb_spec i k) as [->|Hne].
    + destruct (nth_error (runs s) k); simpl; [|discriminate].
      intros [= <-]. reflexivity.
    + intros Hi. apply (Hothers i r Hi). congruence.
  - rewrite Hk. split; [reflexivity|]. split; [reflexivity|].
    intros i r Hi. apply (Hothers i r Hi). congruence.
Qed.

Lemma runEffect_consistent (u : option string) (s : Visualizer) :
  cleanup s = None ->
  (forall i r, nth_error (runs s) i = Some r -> cancelled r = true) ->
  consistent rotationDegrees (runEffect u s).
Proof.
  intros Hnone Hall. unfold runEffect.
  destruct u as [source|]; [destruct (falsy (Some source))|].
  - split; simpl; [exact (fun i r Hi _ => Hall i r Hi) | discriminate | reflexivity].
  - split; simpl.
    + intros i r Hi Hne.
      destruct (Nat.lt_ge_cases i (List.length (runs s))) as [Hlt|Hge].
      * rewrite nth_error_app1 in Hi by assumption. exact (Hall i r Hi).
      * rewrite nth_error_app2 in Hi by assumption.
        destruct (i - List.length (runs s))%nat as [|d] eqn:Hd.
        -- exfalso. apply Hne. f_equal. lia.
        -- destruct d; discriminate.
    + intros i [= <-]. eexists. split.
      * rewrite nth_error_app2 by lia. rewrite Nat.sub_diag. reflexivity.
      * simpl. repeat split. discriminate.
    + discriminate.
  - split; simpl; [exact (fun i r Hi _ => Hall i r Hi) | discriminate | reflexivity].
Qed.

Lemma mount_consistent (u : option string) : consistent rotationDegrees (mount u).
Proof.
  apply runEffect_consistent; [reflexivity|].
  intros [|i] r; discriminate.
Qed.

Lemma react_consistent (s : Visualizer) (e : Event) :
  consistent rotationDegrees s -> consistent rotationDegrees (react rotationDegrees s e).
Proof.
  intros Hs. destruct e as [u|i]; simpl.
  - destruct (sameUrl u (imageUrl s)); [exact Hs|].
    destruct (runCleanup_cancels s Hs) as (Hnone & _ & Hall).
    apply runEffect_consistent; assumption.
  - destruct (nth_error (runs s) i) as [r|] eqn:Hi; [|exact Hs].
    destruct (completed r) eqn:Hdone; [exact Hs|].
    destruct Hs as [Hothers Hcur Hno].
    split; simpl.
    + intros j r'. rewrite nth_error_updateAt.
      destruct (Nat.eqb_spec j i) as [->|Hne].
      * rewrite Hi. simpl. intros [= <-] Hc. simpl. exact (Hothers i r Hi Hc).
      * apply Hothers.
    + intros k Hk. destruct (Hcur k Hk) as (rk & Hrk & Hlive & Hurl & Hrot).
      rewrite nth_error_updateAt.
      destruct (Nat.eqb_spec k i) as [->|Hne].
      * rewrite Hi in Hrk. injection Hrk as <-.
        rewrite Hi. simpl. exists (complete r). rewrite Hlive.
        repeat split; assumption.
      * exists rk. rewrite (Hothers i r Hi ltac:(congruence)).
        repeat split; assumption.
    + intros Hk. rewrite (Hothers i r Hi ltac:(congruence)). exact (Hno Hk).
Qed.

Lemma reachable_consistent (s : Visualizer) :
  reachable rotationDegrees s -> consistent rotationDegrees s.
Proof.
  induction 1 as [u|s e _ IH].
  - apply mount_consistent.
  - apply react_consistent, IH.
Qed.

End EffectFacts.

Section EffectRuns.

Variable rotationDegrees : string -> Z.

Lemma reacts_cons (s : Visualizer) (e : Event) (es : list Event) :
  reacts rotationDegrees s (e :: es) = reacts rotationDegrees (react rotationDegrees s e) es.
Proof. reflexivity. Qed.

Lemma reacts_reachable (es : list Event) :
  forall s, reachable rotationDegrees s -> reachable rotationDegrees (reacts rotationDegrees s es).
Proof.
  induction es as [|e es IH]; intros s Hs; [exact Hs|].
  rewrite reacts_cons. apply IH. apply reachable_react. exact Hs.
Qed.

(** A completion keeps the cleanup and every run's source, keeps runs
    completed, and completes its own run. *)
Lemma complete_keeps (s : Visualizer) (j : nat) :
  cleanup (react rotationDegrees s (Complete j)) = cleanup s /\
  forall n r, nth_error (runs s) n = Some r ->
    exists r', nth_error (runs (react rotationDegrees s (Complete j))) n = Some r' /\
               url r' = url r /\
               (completed r = true \/ n = j -> completed r' = true).
Proof.
  simpl. destruct (nth_error (runs s) j) as [rj|] eqn:Hj.
  - destruct (completed rj) eqn:Hdone.
    + split; [reflexivity|]. intros n r Hn. exists r.
      repeat split; try assumption.
      intros [Hc | ->]; [exact Hc | congruence].
    + split; [reflexivity|]. intros n r Hn. simpl.
      rewrite nth_error_updateAt.
      destruct (Nat.eqb_spec n j) as [->|Hne].
      * rewrite Hn. simpl. exists (complete r). repeat split.
      * exists r. repeat split; try assumption.
        intros [Hc | Heq]; [exact Hc | contradiction].
  - split; [reflexivity|]. intros n r Hn. exists r.
    repeat split; try assumption.
    intros [Hc | ->]; [exact Hc | congruence].
Qed.

Lemma completes_keep (cs : list nat) :
  forall s,
    cleanup (reacts rotationDegrees s (map Complete cs)) = cleanup s /\
    forall n r, nth_error (runs s) n = Some r ->
      exists r', nth_error (runs (reacts rotationDegrees s (map Complete cs))) n = Some r' /\
                 url r' = url r /\
                 (completed r = true \/ In n cs -> completed r' = true).
Proof.
  induction cs as [|j cs IH]; intros s.
  - split; [reflexivity|]. intros n r Hn. exists r.
    repeat split; try assumption. intros [Hc | []]. exact Hc.
  - cbn [map]. rewrite reacts_cons.
    destruct (complete_keeps s j) as [Hclean Hruns].
    destruct (IH (react rotationDegrees s (Complete j))) as [Hclean' Hruns'].
    split; [congruence|].
    intros n r Hn.
    destruct (Hruns n r Hn) as (r1 & Hn1 & Hurl1 & Hdone1).
    destruct (Hruns' n r1 Hn1) as (r2 & Hn2 & Hurl2 & Hdone2).
    exists r2. split; [exact Hn2|]. split; [congruence|].
    intros [Hc | [<- | Hin]].
    + apply Hdone2. left. apply Hdone1. left. exact Hc.
    + apply Hdone2. left. apply Hdone1. right. reflexivity.
    + apply Hdone2. right. exact Hin.
Qed.

End EffectRuns.

(** C9. In every state the component can reach: the completion of a scan
    other than the one of the current source leaves [imageRotation] as it
    is; once the scan of the current source has completed, [imageRotation]
    is the rotation of that source; and after the source is replaced by a
    new one, whatever scans complete afterwards and in whatever order, as
    soon as the scan of the new source is among them [imageRotation] is
    the rotation of the new source. *)
Theorem stale_completion_discarded (rotationDegrees : string -> Z)
  (s : Visualizer) (Hs : reachable rotationDegrees s) :
  (forall i, cleanup s <> Some i ->
     imageRotation (react rotationDegrees s (Complete i)) = imageRotation s) /\
  (forall i r, cleanup s = Some i -> nth_error (runs s) i = Some r ->
     completed r = true ->
     imageUrl s = Some (url r) /\ imageRotation s = rotationDegrees (url r)) /\
  (forall source cs,
     falsy (Some source) = false ->
     sameUrl (Some source) (imageUrl s) = false ->
     In (List.length (runs s)) cs ->
     imageRotation
       (reacts rotationDegrees s (SetImageUrl (Some source) :: map Complete cs))
     = rotationDegrees source).
Proof.
  pose proof (reachable_consistent rotationDegrees s Hs) as Hc.
  split; [|split].
  - intros i Hi. simpl.
    destruct (nth_error (runs s) i) as [r|] eqn:Hr; [|reflexivity].
    destruct (completed r); [reflexivity|]. simpl.
    rewrite (others_cancelled _ _ Hc i r Hr Hi). reflexivity.
  - intros i r Hi Hr Hdone.
    destruct (current_alive _ _ Hc i Hi) as (r' & Hr' & _ & Hurl & Hrot).
    rewrite Hr in Hr'. injection Hr' as <-. split; [exact Hurl | exact (Hrot Hdone)].
  - intros source cs Htruthy Hnew Hin.
    set (s1 := react rotationDegrees s (SetImageUrl (Some source))).
    rewrite reacts_cons. fold s1.
    assert (Hs1 : reachable rotationDegrees s1) by (apply reachable_react, Hs).
    assert (Hruns1 :
              nth_error (runs s1) (List.length (runs s)) =
                Some {| url := source; cancelled := false; completed := false |}
              /\ cleanup s1 = Some (List.length (runs s))).
    { unfold s1, react. rewrite Hnew. unfold runEffect. rewrite Htruthy.
      cbn [runs cleanup]. rewrite runCleanup_length. split; [|reflexivity].
      rewrite nth_error_app2 by (rewrite runCleanup_length; lia).
      rewrite runCleanup_length, Nat.sub_diag. reflexivity. }
    destruct Hruns1 as [Hruns1 Hclean1].
    destruct (completes_keep rotationDegrees cs s1) as [Hclean Hkeep].
    destruct (Hkeep (List.length (runs s)) _ Hruns1) as (r' & Hr' & Hurl & Hdone).
    pose proof (reachable_consistent rotationDegrees _
                  (reacts_reachable rotationDegrees (map Complete cs) s1 Hs1)) as Hc'.
    destruct (current_alive _ _ Hc' (List.length (runs s)) ltac:(congruence))
      as (r'' & Hr'' & _ & _ & Hrot).
    rewrite Hr' in Hr''. injection Hr'' as <-.
    rewrite Hrot; [rewrite Hurl; reflexivity|].
    apply Hdone. right. exact Hin.
Qed.

(** C9 at a concrete run: mounted on "a.jpg", replaced by "b.jpg" before
    the first scan completes; the second scan completes, then the first.
    The rotation is that of "b.jpg". *)
Lemma stale_completion_discarded_witness :
  imageRotation
    (reacts (fun u => if String.eqb u "a.jpg" then 90 else 180)
       (mount (Some "a.jpg"))
       [SetImageUrl (Some "b.jpg"); Complete 1; Complete 0])
  = 180.
Proof.
  apply (proj2 (proj2
    (stale_completion_discarded
       (fun u => if String.eqb u "a.jpg" then 90 else 180)
       (mount (Some "a.jpg"))
       (reachable_mount _ (Some "a.jpg"))))
    "b.jpg" [1; 0]%nat).
  - reflexivity.
  - reflexivity.
  - left. reflexivity.
Defined.

(** * Further properties of the scanner *)

Section EntryLoop.

Variable view : ArrayBuffer.

(** The entry loop started at index [i0]: it reports the value slot of the
    first entry, from [i0] on, whose tag is 0x0112, provided that entry and
    all entries before it lie inside the buffer. *)
Lemma forTags_found_from (entries : Z) (little : bool) (n : nat) (v : Z) :
  forall i0,
    forTags view entries little n i0 = Found v <->
    exists i,
      i0 <= i < i0 + Z.of_nat n /\
      entries + i * 12 + 12 <= byteLength view /\
      getUint16 view (entries + i * 12) little = Some 0x0112 /\
      getUint16 view (entries + i * 12 + 8) little = Some v /\
      forall j, i0 <= j < i ->
        entries + j * 12 + 12 <= byteLength view /\
        exists t, getUint16 view (entries + j * 12) little = Some t /\
                  t <> 0x0112.
Proof.
  induction n as [|n IH]; intros i0.
  - simpl. split; [discriminate|]. intros (i & Hi & _). lia.
  - cbn [forTags]. cbv zeta. split.
    + destruct (entries + i0 * 12 + 12 >? byteLength view) eqn:Hcut;
        [discriminate|].
      destruct (getUint16 view (entries + i0 * 12) little) as [tag|] eqn:Htag;
        [|discriminate].
      destruct (tag =? 0x0112) eqn:Heq.
      * destruct (getUint16 view (entries + i0 * 12 + 8) little) as [v'|] eqn:Hv;
          [|discriminate].
        intros [= <-]. exists i0. apply Z.eqb_eq in Heq. subst tag.
        rewrite Z.gtb_ltb, Z.ltb_ge in Hcut.
        split; [lia|]. split; [lia|]. split; [assumption|].
        split; [assumption|]. intros j Hj. lia.
      * intros Hrec. apply IH in Hrec.
        destruct Hrec as (i & Hi & Hin & Ht & Hv & Hbefore).
        exists i. rewrite Z.gtb_ltb, Z.ltb_ge in Hcut. apply Z.eqb_neq in Heq.
        split; [lia|]. split; [assumption|]. split; [assumption|].
        split; [assumption|]. intros j Hj.
        destruct (Z.eq_dec j i0) as [->|Hne].
        -- split; [lia | eauto].
        -- apply Hbefore. lia.
    + intros (i & Hi & Hin & Ht & Hv & Hbefore).
      destruct (Z.eq_dec i i0) as [->|Hne].
      * assert (Hcut : (entries + i0 * 12 + 12 >? byteLength view) = false)
          by (rewrite Z.gtb_ltb; apply Z.ltb_ge; lia).
        rewrite Hcut, Ht. change (0x0112 =? 0x0112) with true. cbv iota.
        rewrite Hv. reflexivity.
      * destruct (Hbefore i0 ltac:(lia)) as (Hin0 & t & Ht0 & Hne0).
        assert (Hcut : (entries + i0 * 12 + 12 >? byteLength view) = false)
          by (rewrite Z.gtb_ltb; apply Z.ltb_ge; lia).
        rewrite Hcut, Ht0. apply Z.eqb_neq in Hne0. rewrite Hne0.
        apply IH. exists i.
        split; [lia|]. split; [assumption|]. split; [assumption|].
        split; [assumption|]. intros j Hj. apply Hbefore. lia.
Qed.

(** A pass that returns has run the entry loop of an EXIF segment and
    found the entry there. *)
Lemma body_return (offset v : Z) :
  body view offset = Return v ->
  exists entries little tags,
    atIfd view offset entries little tags /\
    forTags view entries little (Z.to_nat tags) 0 = Found v.
Proof.
  unfold body; cbv zeta; norm_offsets offset.
  destruct (offset + 4 >? byteLength view); [discriminate|].
  destruct (getUint16 view offset false) as [marker|] eqn:Hm; [|discriminate].
  destruct (marker =? 0xffe1) eqn:Hmarker.
  - destruct (getUint16 view (offset + 2) false); [|discriminate].
    destruct (offset + 4 + 4 >? byteLength view); [discriminate|].
    destruct (getUint32 view (offset + 4) false) as [sig|] eqn:Hs; [|discriminate].
    destruct (sig =? 0x45786966) eqn:Hsig; cbn [negb]; [|discriminate].
    destruct (offset + 10 + 10 >? byteLength view); [discriminate|].
    destruct (getUint16 view (offset + 10) false) as [order|] eqn:Ho; [|discriminate].
    destruct (getUint32 view (offset + 14) (order =? 0x4949)) as [t|] eqn:Ht;
      [|discriminate].
    destruct (offset + 10 + (t + 8) + 2 >? byteLength view); [discriminate|].
    destruct (getUint16 view (offset + 10 + (t + 8)) (order =? 0x4949))
      as [tags|] eqn:Hn; [|discriminate].
    destruct (forTags view (offset + 10 + (t + 8) + 2) (order =? 0x4949)
                (Z.to_nat tags) 0) as [v'| | |] eqn:Hfor; try discriminate.
    intros [= <-].
    apply Z.eqb_eq in Hmarker, Hsig. subst marker sig.
    exists (offset + 10 + (t + 8) + 2), (order =? 0x4949), tags.
    split; [|exact Hfor].
    exists order, t. repeat split; assumption.
  - destruct (negb (Z.land marker 0xff00 =? 0xff00)); [discriminate|].
    destruct (getUint16 view (offset + 2) false); discriminate.
Qed.

(** What a returning pass needs: a 16-bit value, and at least 32 bytes
    from its own offset on. *)
Lemma body_return_bounds (offset v : Z) :
  body view offset = Return v ->
  0 <= v < 65536 /\ offset + 32 <= byteLength view.
Proof.
  intros Hb. apply body_return in Hb.
  destruct Hb as (entries & little & tags & Hifd & Hfor).
  apply (forTags_found_from entries little (Z.to_nat tags) v 0) in Hfor.
  destruct Hfor as (i & Hi & Hin & _ & Hv & _).
  destruct Hifd as (order & t & _ & _ & _ & _ & Ht & -> & _).
  apply getUint16_Some in Hv. apply getUint32_Some in Ht. lia.
Qed.

Lemma scan_result (fuel : nat) :
  forall offset v, 0 <= offset ->
    scan view fuel offset = Value v ->
    v = -1 \/ (0 <= v < 65536 /\ offset + 32 <= byteLength view).
Proof.
  induction fuel as [|fuel IH]; intros offset v H0; simpl.
  - destruct (negb (offset <? byteLength view)); [|discriminate].
    intros [= <-]. left. reflexivity.
  - destruct (negb (offset <? byteLength view)).
    + intros [= <-]. left. reflexivity.
    + pose proof (body_return_bounds offset) as Hret.
      pose proof (body_advances view offset) as Hadv.
      destruct (body view offset) as [v'| |offset'|]; try discriminate.
      * intros [= <-]. right. apply Hret. reflexivity.
      * intros [= <-]. left. reflexivity.
      * intros Hs. specialize (Hadv offset' eq_refl).
        destruct (IH offset' v ltac:(lia) Hs) as [Hm | [Hv Hlen]];
          [left; exact Hm | right; split; [exact Hv | lia]].
Qed.

(** A result other than -1 was found by the entry loop of some pass. *)
Lemma scan_found (fuel : nat) :
  forall offset v,
    reaches view offset ->
    scan view fuel offset = Value v -> v <> -1 ->
    exists o entries little tags,
      reaches view o /\ atIfd view o entries little tags /\
      forTags view entries little (Z.to_nat tags) 0 = Found v.
Proof.
  induction fuel as [|fuel IH]; intros offset v Hr; simpl.
  - destruct (negb (offset <? byteLength view)); [|discriminate].
    intros [= <-] Hne. contradiction.
  - destruct (negb (offset <? byteLength view)) eqn:Hlt.
    + intros [= <-] Hne. contradiction.
    + apply negb_false_iff, Z.ltb_lt in Hlt.
      pose proof (body_return offset) as Hret.
      destruct (body view offset) as [v'| |offset'|] eqn:Hb; try discriminate.
      * intros [= <-] _. destruct (Hret v' eq_refl) as (e & l & t & Hifd & Hfor).
        exists offset, e, l, t. repeat split; assumption.
      * intros [= <-] Hne. contradiction.
      * intros Hs Hne.
        exact (IH offset' v (reaches_next view offset offset' Hr Hlt Hb) Hs Hne).
Qed.

Lemma reaches_found (offset entries : Z) (little : bool) (tags v : Z) :
  getUint16 view 0 false = Some 0xffd8 ->
  reaches view offset ->
  atIfd view offset entries little tags ->
  forTags view entries little (Z.to_nat tags) 0 = Found v ->
  readExifOrientation view = Value v.
Proof.
  intros Hsoi Hr Hifd Hfor.
  rewrite readExifOrientation_soi by assumption.
  pose proof (length_nonneg view). pose proof (reaches_ge view offset Hr).
  rewrite <- (scan_reaches view offset Hr (S (Z.to_nat (byteLength view)))) by lia.
  assert (Hlt : offset < byteLength view).
  { destruct Hifd as (order & t & Hm & _). apply getUint16_Some in Hm. lia. }
  rewrite scan_unfold by assumption.
  rewrite (body_atIfd view offset entries little tags Hifd), Hfor. reflexivity.
Qed.

End EntryLoop.

(** X1. The entry loop reports the value slot of the first IFD entry whose
    tag is 0x0112, and only that: it returns [v] exactly when some entry
    [i] below the entry count has tag 0x0112 and value slot [v], lies
    wholly inside the buffer, and every entry before it lies inside the
    buffer and has another tag. *)
Theorem forTags_first_orientation (view : ArrayBuffer) (entries : Z)
  (little : bool) (n : nat) (v : Z) :
  forTags view entries little n 0 = Found v <->
  exists i,
    0 <= i < Z.of_nat n /\
    entries + i * 12 + 12 <= byteLength view /\
    getUint16 view (entries + i * 12) little = Some 0x0112 /\
    getUint16 view (entries + i * 12 + 8) little = Some v /\
    forall j, 0 <= j < i ->
      entries + j * 12 + 12 <= byteLength view /\
      exists t, getUint16 view (entries + j * 12) little = Some t /\
                t <> 0x0112.
Proof.
  exact (forTags_found_from view entries little n v 0).
Qed.

(** X2. Whatever [readExifOrientation] returns is -1 or an unsigned 16-bit
    value, and a value other than -1 is only returned for buffers of at
    least 34 bytes. *)
Theorem readExifOrientation_result (view : ArrayBuffer) (v : Z) :
  readExifOrientation view = Value v ->
  v = -1 \/ (0 <= v < 65536 /\ 34 <= byteLength view).
Proof.
  unfold readExifOrientation.
  destruct (byteLength view <? 2); [intros [= <-]; left; reflexivity|].
  destruct (getUint16 view 0 false) as [soi|]; [|discriminate].
  destruct (negb (soi =? 0xffd8)); [intros [= <-]; left; reflexivity|].
  intros Hs. apply scan_result in Hs; [|lia].
  destruct Hs as [Hm | [Hv Hlen]]; [left; exact Hm | right; split; [exact Hv | lia]].
Qed.

(** X2 at [nestedCutOff], where the result is 6. *)
Lemma readExifOrientation_result_witness :
  6 = -1 \/ (0 <= 6 < 65536 /\ 34 <= byteLength nestedCutOff).
Proof.
  apply (readExifOrientation_result nestedCutOff 6).
  vm_compute. reflexivity.
Defined.

(** X3. On a buffer that starts with 0xFFD8 a result other than -1 is
    always the find of the entry loop in some pass of the marker loop that
    met an APP1 segment with the EXIF signature; and every such find is the
    result. *)
Theorem readExifOrientation_found (view : ArrayBuffer) (v : Z)
  (Hsoi : getUint16 view 0 false = Some 0xffd8) :
  (readExifOrientation view = Value v /\ v <> -1 ->
   exists offset entries little tags,
     reaches view offset /\ atIfd view offset entries little tags /\
     forTags view entries little (Z.to_nat tags) 0 = Found v) /\
  (forall offset entries little tags,
     reaches view offset -> atIfd view offset entries little tags ->
     forTags view entries little (Z.to_nat tags) 0 = Found v ->
     readExifOrientation view = Value v).
Proof.
  split.
  - intros [Hres Hne]. rewrite readExifOrientation_soi in Hres by assumption.
    exact (scan_found view _ 2 v (reaches_start view) Hres Hne).
  - intros offset entries little tags Hr Hifd Hfor.
    exact (reaches_found view offset entries little tags v Hsoi Hr Hifd Hfor).
Qed.

(** X3 at [nestedCutOff]: the second pass, at offset 22, finds 6. *)
Lemma readExifOrientation_found_witness :
  readExifOrientation nestedCutOff = Value 6.
Proof.
  apply (proj2 (readExifOrientation_found nestedCutOff 6 eq_refl)
           22 42 false 1).
  - apply (reaches_next nestedCutOff 2 22); [constructor | reflexivity | reflexivity].
  - exists 0x4d4d, 0. repeat split; reflexivity.
  - reflexivity.
Defined.

(** * Further properties of the rotation and of the compositor *)

Lemma orientationToDegrees_range (orientation : Z) :
  In (orientationToDegrees orientation) [0; 90; 180; 270].
Proof.
  unfold orientationToDegrees.
  destruct orientation as [|p|p]; [simpl; tauto | | simpl; tauto].
  do 4 (try destruct p as [p|p|]); simpl; tauto.
Qed.

Lemma readExifOrientation_no_soi (view : ArrayBuffer) :
  getUint16 view 0 false <> Some 0xffd8 ->
  readExifOrientation view = Value (-1).
Proof.
  intros Hsoi. unfold readExifOrientation.
  destruct (byteLength view <? 2) eqn:Hlen; [reflexivity|].
  destruct (getUint16 view 0 false) as [soi|] eqn:Hget.
  - destruct (soi =? 0xffd8) eqn:E; [|reflexivity].
    apply Z.eqb_eq in E. congruence.
  - apply getUint16_None in Hget. apply Z.ltb_ge in Hlen. lia.
Qed.

(** X4. Whatever the source, [getImageRotationDegrees] resolves, and it
    resolves to 0, 90, 180 or 270: a value the compositor's normalisation
    leaves as it is, upright exactly for 0 and 180. *)
Theorem getImageRotationDegrees_quarter_turn
  (fetch : string -> Settled Response) (atob : string -> option string)
  (imageUrl : string) :
  exists degrees,
    getImageRotationDegrees fetch atob imageUrl = Fulfilled degrees /\
    In degrees [0; 90; 180; 270] /\
    rotationNormalsed degrees = degrees /\
    (isUpright degrees = true <-> degrees = 0 \/ degrees = 180).
Proof.
  assert (Hq : forall d, In d [0; 90; 180; 270] ->
                 In d [0; 90; 180; 270] /\ rotationNormalsed d = d /\
                 (isUpright d = true <-> d = 0 \/ d = 180)).
  { intros d Hd. split; [exact Hd|].
    simpl in Hd. destruct Hd as [<- | [<- | [<- | [<- | []]]]];
      (split; [reflexivity|]); unfold isUpright; simpl;
      split; intros H; try discriminate; try tauto;
      destruct H as [H | H]; discriminate. }
  unfold getImageRotationDegrees, loadImageBuffer.
  destruct (loadImageBuffer_try fetch atob imageUrl) as [[buffer|]|].
  - destruct (readExifOrientation_value buffer) as [v Hv]. rewrite Hv.
    eexists. split; [reflexivity|]. apply Hq, orientationToDegrees_range.
  - exists 0. split; [reflexivity|]. apply Hq. simpl. tauto.
  - exists 0. split; [reflexivity|]. apply Hq. simpl. tauto.
Qed.

(** X5. Bytes that do not start with the JPEG marker 0xFFD8 (a PNG, say)
    give rotation 0, and so does a data URL whose base64 payload [atob]
    refuses. *)
Theorem getImageRotationDegrees_not_jpeg
  (fetch : string -> Settled Response) (atob : string -> option string)
  (imageUrl : string) :
  (forall buffer,
     loadImageBuffer fetch atob imageUrl = Fulfilled (Some buffer) ->
     getUint16 buffer 0 false <> Some 0xffd8 ->
     getImageRotationDegrees fetch atob imageUrl = Fulfilled 0) /\
  (forall base64Index,
     String.prefix "data:" imageUrl = true ->
     String.index 0 "base64," imageUrl = Some base64Index ->
     atob (String.substring (base64Index + 7)
             (String.length imageUrl - (base64Index + 7)) imageUrl) = None ->
     getImageRotationDegrees fetch atob imageUrl = Fulfilled 0).
Proof.
  split.
  - intros buffer Hload Hsoi. unfold getImageRotationDegrees.
    rewrite Hload, (readExifOrientation_no_soi buffer Hsoi). reflexivity.
  - intros base64Index Hp Hidx Hatob.
    unfold getImageRotationDegrees, loadImageBuffer, loadImageBuffer_try.
    rewrite Hp. unfold dataUrlToArrayBuffer, dataUrlToArrayBuffer_try.
    rewrite Hidx. cbv zeta. rewrite Hatob. reflexivity.
Qed.

(** X5 at a PNG served over the network and at a data URL with a broken
    payload. *)
Lemma getImageRotationDegrees_not_jpeg_witness :
  getImageRotationDegrees
    (fun _ => Fulfilled
       {| ok := true;
          arrayBuffer :=
            Fulfilled (bytesOfZ [0x89; 0x50; 0x4e; 0x47; 0x0d; 0x0a; 0x1a; 0x0a]) |})
    (fun _ => None) "https://example.org/id.png" = Fulfilled 0 /\
  getImageRotationDegrees (fun _ => Rejected) (fun _ => None)
    "data:image/jpeg;base64,@@@" = Fulfilled 0.
Proof.
  split.
  - apply (proj1 (getImageRotationDegrees_not_jpeg _ _ _)
             (bytesOfZ [0x89; 0x50; 0x4e; 0x47; 0x0d; 0x0a; 0x1a; 0x0a])).
    + reflexivity.
    + vm_compute. discriminate.
  - apply (proj2 (getImageRotationDegrees_not_jpeg _ _ _) 16%nat);
      reflexivity.
Defined.

(** X6. The surface is never higher than [maxHeight]: for every container
    width, image size and rotation the test [displayHeight > maxHeight]
    fails on the computed height. *)
Theorem displayTransform_within_maxHeight (containerWidth : float)
  (img : Image) (imageRotation : Z) :
  (maxHeight <? displayHeight (displayTransform containerWidth img imageRotation))%float
  = false.
Proof.
  unfold displayTransform.
  destruct (maxHeight <?
            containerWidth *
            (rotatedHeight img imageRotation / rotatedWidth img imageRotation))%float
    eqn:Hfit; cbn [displayHeight].
  - reflexivity.
  - exact Hfit.
Qed.

(** In every state of the visualizer the rotation is one the scan can
    produce. *)
Lemma reachable_imageRotation (rotationDegrees : string -> Z) (P : Z -> Prop)
  (s : Visualizer) :
  P 0 -> (forall u, P (rotationDegrees u)) ->
  reachable rotationDegrees s -> P (imageRotation s).
Proof.
  intros H0 Hrange. induction 1 as [u|s e _ IH].
  - unfold mount, runEffect. destruct u as [source|]; [|exact H0].
    destruct (falsy (Some source)); exact H0.
  - destruct e as [u|i]; simpl.
    + destruct (sameUrl u (imageUrl s)); [exact IH|].
      assert (Hc : imageRotation (runCleanup s) = imageRotation s)
        by (unfold runCleanup; destruct (cleanup s); reflexivity).
      unfold runEffect. destruct u as [source|]; [|exact H0].
      destruct (falsy (Some source)); [exact H0|]. simpl. rewrite Hc. exact IH.
    + destruct (nth_error (runs s) i) as [r|]; [|exact IH].
      destruct (completed r); [exact IH|]. simpl.
      destruct (cancelled r); [exact IH | apply Hrange].
Qed.

(** X7. As long as every scan resolves to 0, 90, 180 or 270, the state
    [imageRotation] is one of these four values in every state the
    component can reach, so the compositor's normalisation never changes
    it. *)
Theorem imageRotation_quarter_turn (rotationDegrees : string -> Z)
  (Hrange : forall u, In (rotationDegrees u) [0; 90; 180; 270])
  (s : Visualizer) (Hs : reachable rotationDegrees s) :
  In (imageRotation s) [0; 90; 180; 270] /\
  rotationNormalsed (imageRotation s) = imageRotation s.
Proof.
  assert (Hin : In (imageRotation s) [0; 90; 180; 270]).
  { apply (reachable_imageRotation rotationDegrees
             (fun d => In d [0; 90; 180; 270]) s); try assumption.
    simpl. tauto. }
  split; [exact Hin|].
  simpl in Hin. destruct Hin as [<- | [<- | [<- | [<- | []]]]]; reflexivity.
Qed.

(** X7 for two sources with rotations 90 and 180, after the second scan
    has completed. *)
Lemma imageRotation_quarter_turn_witness :
  In (imageRotation
        (reacts (fun u => if String.eqb u "a.jpg" then 90 else 180)
           (mount (Some "a.jpg"))
           [SetImageUrl (Some "b.jpg"); Complete 1]))
     [0; 90; 180; 270].
Proof.
  apply (proj1 (imageRotation_quarter_turn
                  (fun u => if String.eqb u "a.jpg" then 90 else 180)
                  (fun u => match String.eqb u "a.jpg" as b
                                  return In (if b then 90 else 180) [0; 90; 180; 270]
                            with
                            | true => or_intror (or_introl eq_refl)
                            | false => or_intror (or_intror (or_introl eq_refl))
                            end)
                  _
                  (reachable_react _ _ (Complete 1)
                     (reachable_react _ _ (SetImageUrl (Some "b.jpg"))
                        (reachable_mount _ (Some "a.jpg")))))).
Defined.

(** *** Boxes *)

Lemma pushBox_fields (boxes : list BoundingBoxInfo) (key : string)
  (bb : option (list float)) (c : option float) :
  map field (pushBox boxes key bb c) =
    (map field boxes ++ (if validBox bb then [key] else []))%list.
Proof.
  unfold pushBox. destruct bb as [b|]; [|symmetry; apply app_nil_r].
  destruct (validBox (Some b)).
  - rewrite map_app. reflexivity.
  - symmetry. apply app_nil_r.
Qed.

Lemma pushBox_Forall (P : BoundingBoxInfo -> Prop)
  (boxes : list BoundingBoxInfo) (key : string)
  (bb : option (list float)) (c : option float) :
  Forall P boxes ->
  (forall b, bb = Some b -> List.length b = 4%nat ->
     P {| field := key; label := prop FIELD_LABELS key; bbox := b;
          color := prop FIELD_COLORS key; confidence := c |}) ->
  Forall P (pushBox boxes key bb c).
Proof.
  intros Hboxes Hnew. unfold pushBox.
  destruct bb as [b|]; [|exact Hboxes].
  destruct (validBox (Some b)) eqn:Hv; [|exact Hboxes].
  apply Forall_app. split; [exact Hboxes|].
  constructor; [|constructor].
  apply Hnew; [reflexivity|]. apply Nat.eqb_eq. exact Hv.
Qed.

Lemma fieldOrder_NoDup : NoDup fieldOrder.
Proof.
  unfold fieldOrder.
  repeat (constructor; [simpl; intuition discriminate|]).
  constructor.
Qed.

Lemma boundingBoxes_fields (data : Doc.DocumentData) :
  map field (boundingBoxes (Some data)) = filter (hasBox data) fieldOrder.
Proof.
  unfold boundingBoxes. cbv zeta. rewrite !pushBox_fields.
  unfold fieldOrder, hasBox. cbn [filter bboxOf String.eqb Ascii.eqb Bool.eqb map app].
  destruct (validBox (Doc.full_name_bbox data));
    destruct (validBox (Doc.date_of_birth_bbox data));
    destruct (validBox (Doc.document_number_bbox data));
    destruct (validBox (Doc.expiry_date_bbox data));
    destruct (validBox (Doc.issue_date_bbox data));
    destruct (validBox (Doc.nationality_bbox data));
    destruct (validBox (Doc.address_bbox data)); reflexivity.
Qed.

(** X8. The boxes collected from a payload: one box for each of the seven
    fields whose rect is present with exactly four numbers, in the fixed
    field order and so without a repeated field; each box carries the rect
    of its field (four numbers) and the label and colour of its field; no
    payload gives no boxes. *)
Theorem boundingBoxes_wellformed (data : Doc.DocumentData) :
  boundingBoxes None = [] /\
  map field (boundingBoxes (Some data)) = filter (hasBox data) fieldOrder /\
  NoDup (map field (boundingBoxes (Some data))) /\
  Forall
    (fun b =>
       List.length (bbox b) = 4%nat /\
       bboxOf data (field b) = Some (bbox b) /\
       label b = prop FIELD_LABELS (field b) /\
       color b = prop FIELD_COLORS (field b))
    (boundingBoxes (Some data)).
Proof.
  split; [reflexivity|]. split; [apply boundingBoxes_fields|]. split.
  - rewrite boundingBoxes_fields. apply NoDup_filter, fieldOrder_NoDup.
  - unfold boundingBoxes. cbv zeta.
    repeat (apply pushBox_Forall;
            [|intros b Hb Hlen; cbn [field bbox label color];
              repeat split; [exact Hlen | rewrite <- Hb; reflexivity]]).
    constructor.
Qed.

Section PaintFacts.

Variable measureTextWidth : string -> string -> float.
Variable numberToString : float -> string.
Variable Math_round : float -> float.
Variable toUnsignedLong : float -> float.

Let drawBox' := drawBox measureTextWidth numberToString Math_round.

Lemma drawBox_solid (img : Image) (s : float) (h : option string)
  (b : BoundingBoxInfo) :
  filter isSolidDash (drawBox' img s h b) =
    if isHighlighted h b then [SetLineDash []] else [].
Proof.
  unfold drawBox', drawBox. cbn [filter isSolidDash].
  destruct (isHighlighted h b); reflexivity.
Qed.

Lemma drawBoxes_solid (img : Image) (s : float) (h : option string)
  (boxes : list BoundingBoxInfo) :
  List.length (filter isSolidDash (flat_map (drawBox' img s h) boxes)) =
  List.length (filter (isHighlighted h) boxes).
Proof.
  induction boxes as [|b boxes IH]; [reflexivity|].
  cbn [flat_map filter]. rewrite filter_app, length_app, drawBox_solid, IH.
  destruct (isHighlighted h b); reflexivity.
Qed.

End PaintFacts.

Lemma highlighted_count (h : string) (boxes : list BoundingBoxInfo) :
  NoDup (map field boxes) ->
  List.length (filter (isHighlighted (Some h)) boxes) =
    if existsb (String.eqb h) (map field boxes) then 1%nat else 0%nat.
Proof.
  induction boxes as [|b boxes IH]; [reflexivity|].
  intros Hnd. inversion Hnd as [|f fs Hnotin Hnd']; subst.
  cbn [filter map existsb isHighlighted].
  destruct (String.eqb_spec h (field b)) as [->|Hne].
  - cbn [orb List.length]. rewrite (IH Hnd').
    destruct (existsb (String.eqb (field b)) (map field boxes)) eqn:Hex;
      [|reflexivity].
    exfalso. apply Hnotin. apply existsb_exists in Hex.
    destruct Hex as (x & Hx & Heq). apply String.eqb_eq in Heq. subst x. exact Hx.
  - cbn [orb]. apply IH, Hnd'.
Qed.

Lemma existsb_filter_fieldOrder (data : Doc.DocumentData) (h : string) :
  existsb (String.eqb h) (filter (hasBox data) fieldOrder) = hasBox data h.
Proof.
  destruct (hasBox data h) eqn:Hh.
  - apply existsb_exists. exists h. split; [|apply String.eqb_refl].
    apply filter_In. split; [|exact Hh].
    unfold hasBox, bboxOf, fieldOrder in *.
    repeat match type of Hh with
           | context [String.eqb h ?k] =>
               destruct (String.eqb_spec h k) as [E|_];
               [rewrite E; simpl; auto 10|]
           end.
    simpl in Hh. discriminate.
  - destruct (existsb (String.eqb h) (filter (hasBox data) fieldOrder)) eqn:Hex;
      [|reflexivity].
    apply existsb_exists in Hex. destruct Hex as (x & Hx & Heq).
    apply String.eqb_eq in Heq. subst x. apply filter_In in Hx.
    destruct Hx as [_ Hx]. congruence.
Qed.

(** X9. Drawing leaves the drawing state of the context as it found it:
    after all the calls of [paint] the current drawing state (matrix,
    styles, line settings, font) and the stack of saved states are what
    they were before, whichever of the calls the platform carries out; and
    one outline is stroked per box, no more and no fewer, each of at most
    one rectangle. *)
Theorem paint_restores_transform
  (measureTextWidth : string -> string -> float)
  (numberToString : float -> string)
  (Math_round toUnsignedLong Math_cos Math_sin : float -> float)
  (isColor isFont : string -> bool)
  (img : Image) (t : DisplayTransform) (imageRotation : Z)
  (boundingBoxes : list BoundingBoxInfo) (highlightedField : option string)
  (cv : Canvas) :
  let ops := paint measureTextWidth numberToString Math_round toUnsignedLong
               img t imageRotation boundingBoxes highlightedField in
  let cv' := exec Math_cos Math_sin isColor isFont ops cv in
  current cv' = current cv /\
  saved cv' = saved cv /\
  exists stroked,
    outlines (marks cv') = (outlines (marks cv) ++ stroked)%list /\
    List.length stroked = List.length boundingBoxes /\
    Forall (fun outline => (List.length outline <= 1)%nat) stroked.
Proof.
  intros ops cv'. apply paint_state.
Qed.

(** X10. At most one box is outlined solid. With the boxes collected from
    a payload, drawing with field [f] highlighted makes exactly one
    [setLineDash([])] call when the payload has a four-number rect for [f]
    and none otherwise; with no field highlighted it makes none. *)
Theorem paint_highlights_one
  (measureTextWidth : string -> string -> float)
  (numberToString : float -> string)
  (Math_round toUnsignedLong : float -> float)
  (img : Image) (t : DisplayTransform) (imageRotation : Z)
  (data : Doc.DocumentData) (f : string) :
  let draw := paint measureTextWidth numberToString Math_round toUnsignedLong
                img t imageRotation (boundingBoxes (Some data)) in
  solidOutlines (draw (Some f)) = (if hasBox data f then 1%nat else 0%nat) /\
  solidOutlines (draw None) = 0%nat.
Proof.
  intros draw. unfold draw, paint, solidOutlines. cbv zeta.
  rewrite !filter_app, !length_app, !drawBoxes_solid. cbn [filter isSolidDash List.length].
  split.
  - rewrite highlighted_count.
    + rewrite boundingBoxes_fields, existsb_filter_fieldOrder.
      destruct (hasBox data f); reflexivity.
    + rewrite boundingBoxes_fields. apply NoDup_filter, fieldOrder_NoDup.
  - replace (filter (isHighlighted None) (boundingBoxes (Some data)))
      with (@nil BoundingBoxInfo); [reflexivity|].
    induction (boundingBoxes (Some data)) as [|b l IH]; [reflexivity|exact IH].
Qed.

(** * Properties of the upload form and of the API client *)

Lemma validateFile_true (file : Upload.File) :
  fst (Upload.validateFile file) = true ->
  Upload.includes Upload.allowedTypes (Upload.type file) = true /\
  (Upload.maxSize <? Upload.size file)%N = false.
Proof.
  unfold Upload.validateFile.
  destruct (Upload.includes Upload.allowedTypes (Upload.type file));
    cbn [negb]; [|discriminate].
  destruct (Upload.maxSize <? Upload.size file)%N; [discriminate|].
  intros _. split; reflexivity.
Qed.

Lemma selectFile_valid (s : Upload.State) (file : Upload.File) :
  selectionValid s ->
  selectionValid (fst (Upload.selectFile s file)) /\
  forall f o, ~ In (Upload.OnUpload f o) (snd (Upload.selectFile s file)).
Proof.
  intros Hs. unfold Upload.selectFile.
  destruct (Upload.validateFile file) as [valid alert] eqn:Hv.
  assert (Hno : forall f o l,
             ~ In (Upload.OnUpload f o)
                 (match alert with Some m => [Upload.Alert m] | None => [] end
                  ++ [Upload.OnFileSelect l])%list).
  { intros f o l Hin. apply in_app_or in Hin. destruct Hin as [Hin | Hin].
    - destruct alert; simpl in Hin; [destruct Hin as [Hin | []]|]; [discriminate|contradiction].
    - simpl in Hin. destruct Hin as [Hin | []]. discriminate. }
  destruct valid; cbn [fst snd]; (split; [|intros f o; apply Hno]).
  - intros f [= <-]. rewrite Hv. reflexivity.
  - exact Hs.
Qed.

Lemma handleSubmit_upload (s : Upload.State) (isProcessing : bool)
  (f : Upload.File) (o : Upload.UploadOptions) :
  In (Upload.OnUpload f o) (Upload.handleSubmit s isProcessing) ->
  Upload.selectedFile s = Some f /\ isProcessing = false /\
  Upload.size f <> 0%N /\
  o = {| Upload.document_type := Some (Upload.documentType s);
         Upload.model := Some (Upload.selectedModel s);
         Upload.deployment_type := Some (Upload.deploymentType s);
         Upload.custom_model_path :=
           if String.eqb (Upload.deploymentType s) "On-demand"
              && Upload.truthy (Upload.customModelPath s)
           then Some (Upload.customModelPath s) else None |}.
Proof.
  unfold Upload.handleSubmit.
  destruct (Upload.selectedFile s) as [file|].
  - destruct isProcessing; [intros []|].
    destruct (Upload.size file =? 0)%N eqn:Hz.
    + intros [Hin | []]. discriminate.
    + intros [Hin | []]. injection Hin as <- <-.
      apply N.eqb_neq in Hz. repeat split. exact Hz.
  - intros [Hin | []]. discriminate.
Qed.

Lemma handle_valid (s : Upload.State) (e : Upload.Event) :
  selectionValid s ->
  selectionValid (fst (Upload.handle s e)) /\
  forall f o, In (Upload.OnUpload f o) (snd (Upload.handle s e)) ->
              Upload.handleUploadCheck f = None.
Proof.
  intros Hs.
  assert (Hnone : forall (s' : Upload.State) (out : list Upload.Effect),
             Upload.selectedFile s' = Upload.selectedFile s ->
             (forall f o, ~ In (Upload.OnUpload f o) out) ->
             selectionValid (fst (s', out)) /\
             forall f o, In (Upload.OnUpload f o) (snd (s', out)) ->
                         Upload.handleUploadCheck f = None).
  { intros s' out Hsame Hno. split.
    - intros f Hf. apply Hs. cbn [fst] in Hf. congruence.
    - intros f o Hin. exfalso. exact (Hno f o Hin). }
  assert (Hcleared : forall out : list Upload.Effect,
             (forall f o, ~ In (Upload.OnUpload f o) out) ->
             selectionValid (fst (Upload.setSelectedFile s None, out)) /\
             forall f o, In (Upload.OnUpload f o)
                           (snd (Upload.setSelectedFile s None, out)) ->
                         Upload.handleUploadCheck f = None).
  { intros out Hno. split.
    - intros f Hf. discriminate.
    - intros f o Hin. exfalso. exact (Hno f o Hin). }
  destruct e as [t|files|files| | |v|v|v|v|isProcessing]; cbn [Upload.handle].
  - apply Hnone; [|intros f o []].
    unfold Upload.handleDrag.
    destruct (_ || _); [reflexivity|]. destruct (String.eqb t "dragleave"); reflexivity.
  - unfold Upload.handleDrop. destruct files as [|file files].
    + apply Hnone; [reflexivity | intros f o []].
    + destruct (selectFile_valid (Upload.setDragActive s false) file) as [Hv Hno].
      { intros f Hf. apply Hs. exact Hf. }
      split; [exact Hv | intros f o Hin; exfalso; exact (Hno f o Hin)].
  - unfold Upload.handleFileInput. destruct files as [|file files].
    + apply Hnone; [reflexivity|]. intros f o [Hin | []]. discriminate.
    + destruct (selectFile_valid s file Hs) as [Hv Hno].
      split; [exact Hv | intros f o Hin; exfalso; exact (Hno f o Hin)].
  - apply Hcleared. unfold Upload.clearInput.
    destruct (Upload.selectedFile s) as [sel|]; intros f o Hin; cbn [app In] in Hin;
      repeat (destruct Hin as [Hin | Hin]; [discriminate|]); exact Hin.
  - apply Hcleared. unfold Upload.clearInput.
    destruct (Upload.selectedFile s) as [sel|]; intros f o Hin; cbn [In] in Hin;
      repeat (destruct Hin as [Hin | Hin]; [discriminate|]); exact Hin.
  - apply Hnone; [reflexivity | intros f o []].
  - apply Hnone; [reflexivity | intros f o []].
  - apply Hnone; [reflexivity | intros f o []].
  - apply Hnone; [reflexivity | intros f o []].
  - split; [exact Hs|]. cbn [snd]. intros f o Hin.
    apply handleSubmit_upload in Hin. destruct Hin as (Hsel & _ & Hsize & _).
    destruct (validateFile_true f (Hs f Hsel)) as [Htype Hmax].
    unfold Upload.handleUploadCheck. rewrite Htype, Hmax. cbn [negb].
    apply N.eqb_neq in Hsize. rewrite Hsize. reflexivity.
Qed.

Lemma run_valid (es : list Upload.Event) :
  forall s, selectionValid s ->
    selectionValid (fst (Upload.run s es)) /\
    forall f o, In (Upload.OnUpload f o) (snd (Upload.run s es)) ->
                Upload.handleUploadCheck f = None.
Proof.
  induction es as [|e es IH]; intros s Hs.
  - split; [exact Hs | intros f o []].
  - cbn [Upload.run].
    destruct (handle_valid s e Hs) as [Hs1 Hout1].
    destruct (Upload.handle s e) as [s1 out1].
    destruct (IH s1 Hs1) as [Hs2 Hout2].
    destruct (Upload.run s1 es) as [s2 out2].
    split; [exact Hs2|]. cbn [snd]. intros f o Hin.
    apply in_app_or in Hin. destruct Hin; [eapply Hout1 | eapply Hout2]; eassumption.
Qed.

(** X11. Whatever the user does with the upload form (drag, drop, file
    dialog, remove, reset, settings, submit, in any order), the selected
    file is always one that passed [validateFile], and every file the form
    hands to [onUpload] passes all the checks [App.handleUpload] repeats
    before calling the API: allowed type, at most 10 MB, not empty. *)
Theorem upload_only_valid_files (es : list Upload.Event) :
  (forall file,
     Upload.selectedFile (fst (Upload.run Upload.initial es)) = Some file ->
     fst (Upload.validateFile file) = true) /\
  (forall file options,
     In (Upload.OnUpload file options) (snd (Upload.run Upload.initial es)) ->
     Upload.handleUploadCheck file = None).
Proof.
  apply run_valid. intros f Hf. discriminate.
Qed.

(** X11 at a run: a JPEG chosen in the file dialog, then submitted. *)
Lemma upload_only_valid_files_witness :
  Upload.handleUploadCheck sampleFile = None.
Proof.
  apply (proj2 (upload_only_valid_files
                  [Upload.FileInput [sampleFile]; Upload.Submit false])
           sampleFile
           {| Upload.document_type := Some "auto";
              Upload.model :=
                Some "accounts/fireworks/models/qwen2p5-vl-32b-instruct";
              Upload.deployment_type := Some "Serverless";
              Upload.custom_model_path := None |}).
  vm_compute. right. left. reflexivity.
Defined.

(** X12. The form data of an upload submitted from the form: the entries
    "file", "document_type", "model" and "deployment_type", in this order,
    followed by "custom_model_path" exactly when the deployment type is
    "On-demand" and the custom path is not empty, and then with that path;
    an empty document type goes out as "auto". *)
Theorem formData_of_submit (s : Upload.State) (isProcessing : bool)
  (file : Upload.File) (options : Upload.UploadOptions)
  (Hsubmit : In (Upload.OnUpload file options)
               (Upload.handleSubmit s isProcessing)) :
  let onDemand :=
    String.eqb (Upload.deploymentType s) "On-demand"
    && Upload.truthy (Upload.customModelPath s) in
  Upload.formData file options =
    ([ ("file", Upload.FileValue file);
       ("document_type",
        Upload.TextValue
          (if Upload.truthy (Upload.documentType s)
           then Upload.documentType s else "auto"));
       ("model",
        Upload.TextValue
          (if Upload.truthy (Upload.selectedModel s)
           then Upload.selectedModel s
           else "accounts/fireworks/models/qwen2p5-vl-32b-instruct"));
       ("deployment_type",
        Upload.TextValue
          (if Upload.truthy (Upload.deploymentType s)
           then Upload.deploymentType s else "Serverless")) ]
     ++ (if onDemand
         then [("custom_model_path", Upload.TextValue (Upload.customModelPath s))]
         else []))%list /\
  (Upload.deploymentType s = "Serverless" ->
   forall v, ~ In ("custom_model_path", v) (Upload.formData file options)).
Proof.
  intros onDemand. apply handleSubmit_upload in Hsubmit.
  destruct Hsubmit as (_ & _ & _ & ->).
  assert (Hform : Upload.formData file
    {| Upload.document_type := Some (Upload.documentType s);
       Upload.model := Some (Upload.selectedModel s);
       Upload.deployment_type := Some (Upload.deploymentType s);
       Upload.custom_model_path :=
         if onDemand then Some (Upload.customModelPath s) else None |} =
    ([ ("file", Upload.FileValue file);
       ("document_type",
        Upload.TextValue
          (if Upload.truthy (Upload.documentType s)
           then Upload.documentType s else "auto"));
       ("model",
        Upload.TextValue
          (if Upload.truthy (Upload.selectedModel s)
           then Upload.selectedModel s
           else "accounts/fireworks/models/qwen2p5-vl-32b-instruct"));
       ("deployment_type",
        Upload.TextValue
          (if Upload.truthy (Upload.deploymentType s)
           then Upload.deploymentType s else "Serverless")) ]
     ++ (if onDemand
         then [("custom_model_path", Upload.TextValue (Upload.customModelPath s))]
         else []))%list).
  { unfold Upload.formData, Upload.orElse.
    cbn [Upload.document_type Upload.model Upload.deployment_type
         Upload.custom_model_path].
    f_equal. unfold onDemand.
    destruct (String.eqb (Upload.deploymentType s) "On-demand"); [|reflexivity].
    cbn [andb]. destruct (Upload.truthy (Upload.customModelPath s)) eqn:Ht;
      [rewrite Ht|]; reflexivity. }
  fold onDemand. split; [exact Hform|].
  intros Hserverless v Hin. rewrite Hform in Hin.
  assert (Hoff : onDemand = false) by (unfold onDemand; rewrite Hserverless; reflexivity).
  rewrite Hoff in Hin. simpl in Hin.
  repeat (destruct Hin as [Hin | Hin]; [discriminate|]). exact Hin.
Qed.

(** X12 at an on-demand submission with a custom path. *)
Lemma formData_of_submit_witness :
  map fst
    (Upload.formData sampleFile
       {| Upload.document_type := Some "passport";
          Upload.model := Some "accounts/fireworks/models/llava-v1.5-13b";
          Upload.deployment_type := Some "On-demand";
          Upload.custom_model_path := Some "accounts/me/models/mine" |})
  = [ "file"; "document_type"; "model"; "deployment_type"; "custom_model_path" ].
Proof.
  exact (f_equal (map fst)
           (proj1 (formData_of_submit
              {| Upload.selectedFile := Some sampleFile;
                 Upload.documentType := "passport";
                 Upload.selectedModel := "accounts/fireworks/models/llava-v1.5-13b";
                 Upload.deploymentType := "On-demand";
                 Upload.customModelPath := "accounts/me/models/mine";
                 Upload.dragActive := false |}
              false sampleFile _ (or_introl eq_refl)))).
Defined.

Section PollFacts.

Variable getDocument : nat -> Api.Outcome Doc.DocumentResponse.
Variable maxAttempts : Z.

Lemma pollLoop_done (fuel : nat) (attempts : Z) :
  maxAttempts <= attempts ->
  Api.pollLoop getDocument maxAttempts fuel attempts
  = (Api.PollFailed timeoutError, Z.to_nat attempts).
Proof.
  intros H. apply Z.ltb_ge in H. destruct fuel; simpl; rewrite H; reflexivity.
Qed.

Lemma pollLoop_step (fuel : nat) (attempts : Z) :
  attempts < maxAttempts ->
  Api.pollLoop getDocument maxAttempts (S fuel) attempts =
    match getDocument (Z.to_nat attempts) with
    | Api.Failed e => (Api.PollFailed e, S (Z.to_nat attempts))
    | Api.Resolved document =>
        if Api.settled document
        then (Api.Polled document, S (Z.to_nat attempts))
        else Api.pollLoop getDocument maxAttempts fuel (attempts + 1)
    end.
Proof.
  intros H. apply Z.ltb_lt in H. simpl. rewrite H. reflexivity.
Qed.

(** Passes whose call resolves to an unsettled document just use up
    budget. *)
Lemma pollLoop_skip (fuel : nat) :
  forall a k, 0 <= a <= k -> k <= maxAttempts ->
    unsettledUntil getDocument a k -> k - a <= Z.of_nat fuel ->
    Api.pollLoop getDocument maxAttempts fuel a
    = Api.pollLoop getDocument maxAttempts (fuel - Z.to_nat (k - a)) k.
Proof.
  induction fuel as [|fuel IH]; intros a k Hak Hk Hun Hfuel.
  - assert (k = a) by lia. subst k. rewrite Z.sub_diag. reflexivity.
  - destruct (Z.eq_dec a k) as [->|Hne].
    + rewrite Z.sub_diag. reflexivity.
    + rewrite pollLoop_step by lia.
      destruct (Hun a ltac:(lia)) as (d & Hd & Hs). rewrite Hd, Hs.
      rewrite (IH (a + 1) k) by (try lia; intros j Hj; apply Hun; lia).
      f_equal. lia.
Qed.

(** What the loop ends with, read back from its result. *)
Lemma pollLoop_result (fuel : nat) :
  forall a, 0 <= a -> maxAttempts - a <= Z.of_nat fuel ->
    match Api.pollLoop getDocument maxAttempts fuel a with
    | (Api.Polled d, n) =>
        Api.settled d = true /\
        exists k, a <= k < maxAttempts /\ n = S (Z.to_nat k) /\
                  getDocument (Z.to_nat k) = Api.Resolved d /\
                  unsettledUntil getDocument a k
    | (Api.PollFailed e, n) =>
        (exists k, a <= k < maxAttempts /\ n = S (Z.to_nat k) /\
                   getDocument (Z.to_nat k) = Api.Failed e /\
                   unsettledUntil getDocument a k)
        \/ (e = timeoutError /\ n = Z.to_nat (Z.max a maxAttempts) /\
            unsettledUntil getDocument a maxAttempts)
    | (Api.PollOutOfFuel, _) => False
    end.
Proof.
  induction fuel as [|fuel IH]; intros a Ha Hfuel.
  - rewrite pollLoop_done by lia. right.
    split; [reflexivity|]. split; [f_equal; lia|]. intros j Hj. lia.
  - destruct (Z.lt_ge_cases a maxAttempts) as [Hlt|Hge].
    + rewrite pollLoop_step by assumption.
      destruct (getDocument (Z.to_nat a)) as [d|e] eqn:Hd.
      * destruct (Api.settled d) eqn:Hs.
        -- split; [exact Hs|]. exists a.
           repeat split; try assumption; try lia. intros j Hj. lia.
        -- specialize (IH (a + 1) ltac:(lia) ltac:(lia)).
           assert (Hext : forall k, a + 1 <= k ->
                     unsettledUntil getDocument (a + 1) k ->
                     unsettledUntil getDocument a k).
           { intros k Hk Hun j Hj. destruct (Z.eq_dec j a) as [->|Hne].
             - exists d. split; assumption.
             - apply Hun. lia. }
           destruct (Api.pollLoop getDocument maxAttempts fuel (a + 1))
             as [[d'|e'|] n].
           ++ destruct IH as (Hs' & k & Hk & Hn & Hk' & Hun).
              split; [exact Hs'|]. exists k.
              repeat split; try assumption; try lia. apply Hext; [lia | exact Hun].
           ++ destruct IH as [(k & Hk & Hn & Hk' & Hun) | (He & Hn & Hun)].
              ** left. exists k.
                 repeat split; try assumption; try lia. apply Hext; [lia | exact Hun].
              ** right. split; [exact He|]. split; [rewrite Hn; f_equal; lia|].
                 apply Hext; [lia | exact Hun].
           ++ exact IH.
      * left. exists a. repeat split; try assumption; try lia. intros j Hj. lia.
    + rewrite pollLoop_done by assumption. right.
      split; [reflexivity|]. split; [f_equal; lia|]. intros j Hj. lia.
Qed.

End PollFacts.

(** X13. [pollProcessingStatus] calls [getDocument] at most [maxAttempts]
    times. It resolves only to a document that is completed or in error:
    the first such answer, after answers that were all neither. If the
    first [maxAttempts] answers are all neither, it makes exactly
    [maxAttempts] calls and fails with the time-out error; without a
    positive [maxAttempts] it fails so without a single call. A failing
    call ends it with that failure. *)
Theorem pollProcessingStatus_behaviour
  (getDocument : nat -> Api.Outcome Doc.DocumentResponse) (maxAttempts : Z) :
  let result := Api.pollProcessingStatus getDocument maxAttempts in
  fst result <> Api.PollOutOfFuel /\
  Z.of_nat (snd result) <= Z.max 0 maxAttempts /\
  (forall d, fst result = Api.Polled d ->
     Api.settled d = true /\
     exists k, 0 <= k < maxAttempts /\ snd result = S (Z.to_nat k) /\
               getDocument (Z.to_nat k) = Api.Resolved d /\
               unsettledUntil getDocument 0 k) /\
  (unsettledUntil getDocument 0 maxAttempts ->
   result = (Api.PollFailed timeoutError, Z.to_nat maxAttempts)) /\
  (forall k e, 0 <= k < maxAttempts -> unsettledUntil getDocument 0 k ->
     getDocument (Z.to_nat k) = Api.Failed e ->
     result = (Api.PollFailed e, S (Z.to_nat k))) /\
  (forall k d, 0 <= k < maxAttempts -> unsettledUntil getDocument 0 k ->
     getDocument (Z.to_nat k) = Api.Resolved d -> Api.settled d = true ->
     result = (Api.Polled d, S (Z.to_nat k))).
Proof.
  intros result. unfold result, Api.pollProcessingStatus.
  pose proof (pollLoop_result getDocument maxAttempts (Z.to_nat maxAttempts) 0
                ltac:(lia) ltac:(lia)) as Hres.
  assert (Hat : forall k, 0 <= k < maxAttempts ->
            unsettledUntil getDocument 0 k ->
            Api.pollLoop getDocument maxAttempts (Z.to_nat maxAttempts) 0 =
            match getDocument (Z.to_nat k) with
            | Api.Failed e => (Api.PollFailed e, S (Z.to_nat k))
            | Api.Resolved document =>
                if Api.settled document
                then (Api.Polled document, S (Z.to_nat k))
                else Api.pollLoop getDocument maxAttempts
                       (Z.to_nat maxAttempts - Z.to_nat (k - 0) - 1) (k + 1)
            end).
  { intros k Hk Hun.
    rewrite (pollLoop_skip getDocument maxAttempts _ 0 k) by (try lia; assumption).
    destruct (Z.to_nat maxAttempts - Z.to_nat (k - 0))%nat as [|f] eqn:Hf; [lia|].
    rewrite pollLoop_step by lia.
    replace (S f - 1)%nat with f by lia. reflexivity. }
  destruct (Api.pollLoop getDocument maxAttempts (Z.to_nat maxAttempts) 0)
    as [r n] eqn:Hrun. cbn [fst snd].
  split; [|split; [|split; [|split; [|split]]]].
  - destruct r; [discriminate | discriminate | contradiction].
  - destruct r as [d|e|]; [| |contradiction].
    + destruct Hres as (_ & k & Hk & -> & _). lia.
    + destruct Hres as [(k & Hk & -> & _) | (_ & -> & _)]; lia.
  - intros d ->. exact Hres.
  - intros Hun.
    destruct (Z.le_gt_cases maxAttempts 0) as [Hle|Hgt].
    + rewrite pollLoop_done in Hrun by lia. rewrite <- Hrun. f_equal.
      destruct maxAttempts; try reflexivity; lia.
    + rewrite (pollLoop_skip getDocument maxAttempts _ 0 maxAttempts) in Hrun
        by (try lia; assumption).
      rewrite pollLoop_done in Hrun by lia. symmetry. exact Hrun.
  - intros k e Hk Hun He. rewrite (Hat k Hk Hun), He. reflexivity.
  - intros k d Hk Hun Hd Hs. rewrite (Hat k Hk Hun), Hd, Hs. reflexivity.
Qed.

(** X13 at [sampleServer] with the default of 30 attempts: the third call
    ends the polling. *)
Lemma pollProcessingStatus_behaviour_witness :
  Api.pollProcessingStatus sampleServer 30
  = (Api.Polled (sampleDocument "doc-1" "completed"), 3%nat).
Proof.
  apply (proj2 (proj2 (proj2 (proj2 (proj2
           (pollProcessingStatus_behaviour sampleServer 30))))) 2).
  - lia.
  - intros j Hj. exists (sampleDocument "doc-1" "processing").
    assert (Hcase : j = 0 \/ j = 1) by lia.
    destruct Hcase as [-> | ->]; split; reflexivity.
  - reflexivity.
  - reflexivity.
Defined.

Section RequestFacts.

Variable numberToString : float -> string.
Variable typeErrorMessage : string.

Local Abbreviation request := (Api.request numberToString typeErrorMessage).
Local Abbreviation uploadDocument :=
  (Api.uploadDocument numberToString typeErrorMessage).
Local Abbreviation toString := (Api.toString numberToString).

Lemma respond_not_ok (response : Api.HttpResponse) :
  Api.ok response = false ->
  exists message,
    Api.throwError numberToString typeErrorMessage
      (Api.errorMessage response) = Api.ErrorObject message /\
    request (Api.Resolved response) = Api.Failed (Api.ErrorObject message) /\
    uploadDocument (Api.Resolved response)
    = Api.Failed (Api.ErrorObject message).
Proof.
  intros Hok. unfold Api.request, Api.uploadDocument, Api.respond.
  rewrite Hok. cbn [negb]. unfold Api.throwError.
  destruct (Api.toString numberToString (Api.errorMessage response));
    eexists; repeat split; reflexivity.
Qed.

(** X14. [request] and [uploadDocument] resolve only for a response that is
    [ok], and then to its parsed body. For any other response both fail
    with the same [Error]. Its message is the line "HTTP status:
    statusText" when the body cannot be read, is [null], or has no truthy
    [detail]; any truthy [detail] is kept and converted to a string: a
    non-empty string gives itself, a number its digits, an array holding
    one object (the shape of a validation error) gives "[object Object]",
    and the empty array gives the empty message; when the conversion
    throws, the message is that of the [TypeError]. A failure of [fetch]
    itself always surfaces as an [Error]: the one thrown, or for another
    thrown value one with the network message from [request] and the
    upload message from [uploadDocument]. *)
Theorem request_outcomes (fetched : Api.Outcome Api.HttpResponse) :
  (forall v,
     request fetched = Api.Resolved v \/ uploadDocument fetched = Api.Resolved v ->
     exists response,
       fetched = Api.Resolved response /\ Api.ok response = true /\
       Api.json response = Api.Resolved v) /\
  (forall response,
     fetched = Api.Resolved response -> Api.ok response = false ->
     exists message,
       request fetched = Api.Failed (Api.ErrorObject message) /\
       uploadDocument fetched = Api.Failed (Api.ErrorObject message) /\
       ((forall body detail,
           Api.json response = Api.Resolved body ->
           Api.detailOf body = Some (Some detail) ->
           Api.truthy detail = false) ->
        message = Api.statusLine response) /\
       (forall body detail,
          Api.json response = Api.Resolved body ->
          Api.detailOf body = Some (Some detail) ->
          Api.truthy detail = true ->
          message = match toString detail with
                    | Some text => text
                    | None => typeErrorMessage
                    end /\
          (forall text, detail = Api.JString text -> message = text) /\
          (forall x, detail = Api.JNumber x -> message = numberToString x) /\
          (forall members,
             detail = Api.JArray [Api.JObject members] ->
             Api.member "toString" members = None ->
             message = "[object Object]") /\
          (detail = Api.JArray [] -> message = EmptyString))) /\
  (forall e,
     fetched = Api.Failed e ->
     exists message upload,
       request fetched = Api.Failed (Api.ErrorObject message) /\
       uploadDocument fetched = Api.Failed (Api.ErrorObject upload) /\
       (forall m, e = Api.ErrorObject m -> message = m /\ upload = m) /\
       (e = Api.OtherValue ->
        message = "Network error - please check your connection" /\
        upload = "Upload failed - please check your connection and try again")).
Proof.
  split; [|split].
  - intros v Hres. unfold Api.request, Api.uploadDocument, Api.respond in Hres.
    destruct fetched as [response|e].
    + exists response. destruct (Api.ok response); cbn [negb] in Hres.
      * destruct Hres as [Hres | Hres]; repeat split; exact Hres.
      * destruct Hres; discriminate.
    + destruct Hres; discriminate.
  - intros response -> Hok.
    destruct (respond_not_ok response Hok) as (message & Hthrow & Hreq & Hup).
    exists message. split; [exact Hreq|]. split; [exact Hup|]. split.
    + intros Hnone. unfold Api.throwError, Api.errorMessage in Hthrow.
      destruct (Api.json response) as [body|e].
      * destruct (Api.detailOf body) as [[detail|]|] eqn:Hdetail.
        -- rewrite (Hnone body detail eq_refl Hdetail) in Hthrow.
           cbn [Api.toString] in Hthrow. congruence.
        -- cbn [Api.toString] in Hthrow. congruence.
        -- cbn [Api.toString] in Hthrow. congruence.
      * cbn [Api.toString] in Hthrow. congruence.
    + intros body detail Hbody Hdetail Htruthy.
      unfold Api.throwError, Api.errorMessage in Hthrow.
      rewrite Hbody, Hdetail, Htruthy in Hthrow.
      assert (Hmessage : message = match toString detail with
                                   | Some text => text
                                   | None => typeErrorMessage
                                   end).
      { destruct (Api.toString numberToString detail); congruence. }
      split; [exact Hmessage|]. repeat split.
      * intros text ->. exact Hmessage.
      * intros x ->. exact Hmessage.
      * intros members -> Hmember. rewrite Hmessage.
        cbn [Api.toString]. rewrite Hmember. reflexivity.
      * intros ->. exact Hmessage.
  - intros e ->. unfold Api.request, Api.uploadDocument, Api.respond.
    destruct e as [m|]; do 2 eexists; (split; [reflexivity|]);
      (split; [reflexivity|]); split; try discriminate.
    + intros m' [= <-]. split; reflexivity.
    + intros _. split; reflexivity.
Qed.

End RequestFacts.

(** * Properties of the App and of the document history *)

Lemma find_firstWhere {A : Type} (p : A -> bool) (l : list A) (x : A) :
  find p l = Some x -> firstWhere p x l.
Proof.
  induction l as [|y l IH]; [discriminate|].
  simpl. destruct (p y) eqn:Hy.
  - intros [= <-]. exists [], l. repeat split; [exact Hy | constructor].
  - intros Hx. destruct (IH Hx) as (before & after & -> & Hp & Hall).
    exists (y :: before), after. repeat split; [exact Hp|].
    constructor; assumption.
Qed.

(** X15. The document the App shows on its own: for a non-empty list it is
    always one of the listed documents; it is the first completed document
    with data if there is one, else the first document with data if there
    is one, else the first document. *)
Theorem docToShow_preference (documents : list Doc.DocumentResponse) :
  (documents <> [] ->
   exists doc, App.docToShow documents = Some doc /\ In doc documents) /\
  (forall doc, App.docToShow documents = Some doc ->
     firstWhere App.completedWithData doc documents
     \/ (Forall (fun d => App.completedWithData d = false) documents /\
         firstWhere App.hasData doc documents)
     \/ (Forall (fun d => App.hasData d = false) documents /\
         hd_error documents = Some doc)).
Proof.
  assert (Hchoice : forall doc, App.docToShow documents = Some doc ->
     firstWhere App.completedWithData doc documents
     \/ (Forall (fun d => App.completedWithData d = false) documents /\
         firstWhere App.hasData doc documents)
     \/ (Forall (fun d => App.hasData d = false) documents /\
         hd_error documents = Some doc)).
  { intros doc. unfold App.docToShow.
    destruct (find App.completedWithData documents) as [d1|] eqn:H1.
    - intros [= <-]. left. apply find_firstWhere, H1.
    - pose proof (find_none _ _ H1) as Hn1.
      destruct (find App.hasData documents) as [d2|] eqn:H2.
      + intros [= <-]. right. left. split.
        * apply Forall_forall. exact Hn1.
        * apply find_firstWhere, H2.
      + pose proof (find_none _ _ H2) as Hn2. intros Hhd. right. right. split.
        * apply Forall_forall. exact Hn2.
        * destruct documents; exact Hhd. }
  split; [|exact Hchoice].
  intros Hne. destruct documents as [|d0 rest]; [contradiction|].
  assert (Hsome : exists doc, App.docToShow (d0 :: rest) = Some doc).
  { unfold App.docToShow.
    destruct (find App.completedWithData (d0 :: rest)); [eauto|].
    destruct (find App.hasData (d0 :: rest)); [eauto | exists d0; reflexivity]. }
  destruct Hsome as [doc Hdoc]. exists doc. split; [exact Hdoc|].
  destruct (Hchoice doc Hdoc) as [Hf | [[_ Hf] | [_ Hhd]]].
  - destruct Hf as (b & a & -> & _). apply in_or_app. right. left. reflexivity.
  - destruct Hf as (b & a & -> & _). apply in_or_app. right. left. reflexivity.
  - injection Hhd as <-. left. reflexivity.
Qed.

Lemma last_default {A : Type} (l : list A) (x d d' : A) :
  last (x :: l) d = last (x :: l) d'.
Proof.
  revert x. induction l as [|y l IH]; intros x; [reflexivity|].
  change (last (y :: l) d = last (y :: l) d'). apply IH.
Qed.

Lemma updaterRevoked_app (a b : list App.Release) :
  App.updaterRevoked (a ++ b)
  = (App.updaterRevoked a ++ App.updaterRevoked b)%list.
Proof. apply flat_map_app. Qed.

Lemma updaterRevoked_map (urls : list string) :
  App.updaterRevoked (map App.RevokedByUpdater urls) = urls.
Proof.
  induction urls as [|u urls IH]; [reflexivity|].
  cbn [map App.updaterRevoked flat_map app]. f_equal. exact IH.
Qed.

Lemma updaterRevoked_cleanup (i : option Z) (u : option string) :
  App.updaterRevoked (App.cleanup i u) = [].
Proof.
  unfold App.cleanup. rewrite updaterRevoked_app.
  assert (H : App.updaterRevoked (map App.RevokedByCleanup (App.blobOf u)) = []).
  { induction (App.blobOf u) as [|x l IH]; [reflexivity | exact IH]. }
  rewrite H, app_nil_r.
  destruct i as [id|]; [|reflexivity]. destruct (id =? 0); reflexivity.
Qed.

Lemma blobOf_prefix (u : option string) (p : string) :
  In p (App.blobOf u) -> String.prefix "blob:" p = true.
Proof.
  unfold App.blobOf. destruct u as [q|]; [|intros []].
  destruct (App.isBlob (Some q)) eqn:Hb; [|intros []].
  intros [<- | []]. unfold App.isBlob in Hb.
  apply andb_true_iff in Hb. apply Hb.
Qed.

(** A log in which every URL revoked is a "blob:" URL. *)
Lemma revoked_blob_app (a b : list App.Release) :
  (forall u, In (App.RevokedByUpdater u) a \/ In (App.RevokedByCleanup u) a ->
             String.prefix "blob:" u = true) ->
  (forall u, In (App.RevokedByUpdater u) b \/ In (App.RevokedByCleanup u) b ->
             String.prefix "blob:" u = true) ->
  forall u, In (App.RevokedByUpdater u) (a ++ b) \/
            In (App.RevokedByCleanup u) (a ++ b) ->
            String.prefix "blob:" u = true.
Proof.
  intros Ha Hb u [H | H]; apply in_app_or in H; destruct H as [H | H];
    [apply Ha | apply Hb | apply Ha | apply Hb]; auto.
Qed.

Lemma cleanup_blob (i : option Z) (url : option string) (u : string) :
  In (App.RevokedByUpdater u) (App.cleanup i url) \/
  In (App.RevokedByCleanup u) (App.cleanup i url) ->
  String.prefix "blob:" u = true.
Proof.
  unfold App.cleanup. intros [H | H]; apply in_app_or in H; destruct H as [H | H].
  - destruct i as [id|]; [|contradiction].
    destruct (id =? 0); [contradiction|]. destruct H as [H | []]. discriminate.
  - apply in_map_iff in H. destruct H as (x & Hx & _). discriminate.
  - destruct i as [id|]; [|contradiction].
    destruct (id =? 0); [contradiction|]. destruct H as [H | []]. discriminate.
  - apply in_map_iff in H. destruct H as (x & [= <-] & Hx).
    apply (blobOf_prefix url), Hx.
Qed.

(** The updates of one render, from any state. *)
Lemma updates_fold (updates : list App.Update) :
  forall s,
    let urls :=
      flat_map (fun u => match u with
                         | App.UpdateResultsImage newUrl => [newUrl]
                         | _ => []
                         end) updates in
    let s' := fold_left App.update updates s in
    App.resultsImageUrl s' = last urls (App.resultsImageUrl s) /\
    App.updaterRevoked (App.released s')
    = (App.updaterRevoked (App.released s)
       ++ blobsOf (removelast (App.resultsImageUrl s :: urls)))%list /\
    ((forall u, In (App.RevokedByUpdater u) (App.released s) \/
                In (App.RevokedByCleanup u) (App.released s) ->
                String.prefix "blob:" u = true) ->
     forall u, In (App.RevokedByUpdater u) (App.released s') \/
               In (App.RevokedByCleanup u) (App.released s') ->
               String.prefix "blob:" u = true).
Proof.
  induction updates as [|[newUrl|value] updates IH]; intros s urls s';
    subst urls s'.
  - cbn [flat_map fold_left last removelast blobsOf]. rewrite app_nil_r. auto.
  - cbn [flat_map fold_left app App.update].
    destruct (IH (App.update s (App.UpdateResultsImage newUrl)))
      as (Hurl & Hrev & Hblob).
    cbn [App.update App.updateResultsImage App.resultsImageUrl App.released]
      in Hurl, Hrev, Hblob.
    split; [|split].
    + rewrite Hurl.
      match goal with
      | |- last ?rest _ = last (_ :: ?rest) _ =>
          destruct rest as [|o l]; [reflexivity|]
      end.
      change (last (newUrl :: o :: l) (App.resultsImageUrl s))
        with (last (o :: l) (App.resultsImageUrl s)).
      apply last_default.
    + rewrite Hrev, updaterRevoked_app, updaterRevoked_map, <- app_assoc.
      reflexivity.
    + intros Hs. apply Hblob. apply revoked_blob_app; [exact Hs|].
      intros u [H | H]; apply in_map_iff in H; destruct H as (x & Hx & Hin).
      * injection Hx as <-. apply (blobOf_prefix _ _ Hin).
      * discriminate.
  - cbn [flat_map fold_left app App.update].
    destruct (IH (App.update s (App.SetPollingInterval value)))
      as (Hurl & Hrev & Hblob).
    cbn [App.update App.resultsImageUrl App.released] in Hurl, Hrev, Hblob.
    split; [exact Hurl|]. split; [exact Hrev | exact Hblob].
Qed.

Lemma last_app_cons {A : Type} (a : list A) (x : A) (b : list A) (d d' : A) :
  last (a ++ x :: b) d = last (x :: b) d'.
Proof.
  induction a as [|y a IH]; [apply last_default|].
  cbn [app]. destruct (a ++ x :: b)%list eqn:E.
  - destruct a; discriminate.
  - exact IH.
Qed.

Lemma last_cons {A : Type} (x : A) (l : list A) (d : A) :
  last (x :: l) d = last l x.
Proof.
  destruct l as [|y l]; [reflexivity|].
  change (last (x :: y :: l) d) with (last (y :: l) d). apply last_default.
Qed.

Lemma blobsOf_split (prev : option string) (urls images : list (option string)) :
  (blobsOf (removelast (prev :: urls))
   ++ blobsOf (removelast (last urls prev :: images)))%list
  = blobsOf (removelast (prev :: urls ++ images)).
Proof.
  unfold blobsOf. rewrite <- flat_map_app. f_equal.
  destruct images as [|o l].
  - cbn [removelast]. rewrite !app_nil_r. reflexivity.
  - change (prev :: urls ++ o :: l)%list with ((prev :: urls) ++ o :: l)%list.
    rewrite removelast_app by discriminate.
    change (removelast (last urls prev :: o :: l))
      with (last urls prev :: removelast (o :: l)).
    transitivity
      ((removelast (prev :: urls) ++ [last (prev :: urls) prev])
       ++ removelast (o :: l))%list.
    + rewrite <- app_assoc. cbn [app]. rewrite last_cons. reflexivity.
    + rewrite <- app_removelast_last by discriminate. reflexivity.
Qed.

(** A sequence of renders, from any state. *)
Lemma renders_fold (batches : list (list App.Update)) :
  forall s,
    let s' := fold_left App.render batches s in
    App.resultsImageUrl s'
    = last (App.imagesOf batches) (App.resultsImageUrl s) /\
    App.updaterRevoked (App.released s')
    = (App.updaterRevoked (App.released s)
       ++ blobsOf (removelast (App.resultsImageUrl s :: App.imagesOf batches)))%list /\
    ((forall u, In (App.RevokedByUpdater u) (App.released s) \/
                In (App.RevokedByCleanup u) (App.released s) ->
                String.prefix "blob:" u = true) ->
     forall u, In (App.RevokedByUpdater u) (App.released s') \/
               In (App.RevokedByCleanup u) (App.released s') ->
               String.prefix "blob:" u = true).
Proof.
  induction batches as [|updates batches IH]; intros s s'; subst s'.
  - cbn [fold_left App.imagesOf List.concat flat_map last removelast blobsOf].
    rewrite app_nil_r. auto.
  - cbn [fold_left].
    destruct (updates_fold updates s) as (Hurl1 & Hrev1 & Hblob1).
    cbv zeta in Hurl1, Hrev1, Hblob1.
    set (urls1 := flat_map _ updates) in *.
    assert (Himages : App.imagesOf (updates :: batches)
                      = (urls1 ++ App.imagesOf batches)%list).
    { unfold App.imagesOf. cbn [List.concat]. apply flat_map_app. }
    assert (Hrender :
      App.resultsImageUrl (App.render s updates)
      = last urls1 (App.resultsImageUrl s) /\
      App.updaterRevoked (App.released (App.render s updates))
      = (App.updaterRevoked (App.released s)
         ++ blobsOf (removelast (App.resultsImageUrl s :: urls1)))%list /\
      ((forall u, In (App.RevokedByUpdater u) (App.released s) \/
                  In (App.RevokedByCleanup u) (App.released s) ->
                  String.prefix "blob:" u = true) ->
       forall u,
         In (App.RevokedByUpdater u) (App.released (App.render s updates)) \/
         In (App.RevokedByCleanup u) (App.released (App.render s updates)) ->
         String.prefix "blob:" u = true)).
    { unfold App.render. cbv zeta.
      destruct (_ && _); cbn [App.resultsImageUrl App.released].
      - auto.
      - split; [exact Hurl1|]. split.
        + rewrite updaterRevoked_app, updaterRevoked_cleanup, app_nil_r.
          exact Hrev1.
        + intros Hs. apply revoked_blob_app; [apply Hblob1, Hs|].
          apply cleanup_blob. }
    destruct Hrender as (Hurl & Hrev & Hblob).
    destruct (IH (App.render s updates)) as (Hurl' & Hrev' & Hblob').
    cbv zeta in Hurl', Hrev', Hblob'.
    split; [|split].
    + rewrite Hurl', Hurl, Himages.
      destruct (App.imagesOf batches) as [|o l].
      * rewrite app_nil_r. reflexivity.
      * symmetry. apply last_app_cons.
    + rewrite Hrev', Hrev, Hurl, Himages, <- app_assoc. f_equal.
      apply blobsOf_split.
    + intros Hs. apply Hblob', Hblob, Hs.
Qed.

(** X16. Object URLs of the results image, over any sequence of renders,
    each with the updates queued for it. The state holds the last URL
    given to [updateResultsImage]; every URL revoked, by the updater or by
    the effect cleanup, is a "blob:" URL; and the updater revokes, in
    order, exactly the "blob:" URLs that were replaced. The cleanup
    revokes on top of that: a render that changes only [pollingInterval]
    revokes the "blob:" URL that stays in the state, and so still
    displayed; the unmount revokes the URL in the state. *)
Theorem updateResultsImage_revokes (batches : list (list App.Update)) :
  let s := App.renders batches in
  let urls := App.imagesOf batches in
  App.resultsImageUrl s = last urls None /\
  (forall u, In (App.RevokedByUpdater u) (App.released s) \/
             In (App.RevokedByCleanup u) (App.released s) ->
             String.prefix "blob:" u = true) /\
  App.updaterRevoked (App.released s) = blobsOf (removelast urls) /\
  (forall u value,
     App.resultsImageUrl s = Some u -> App.isBlob (Some u) = true ->
     App.sameInterval (App.pollingInterval s) value = false ->
     let s' := App.render s [App.SetPollingInterval value] in
     App.resultsImageUrl s' = Some u /\
     exists cleared,
       App.released s'
       = (App.released s ++ cleared ++ [App.RevokedByCleanup u])%list /\
       Forall (fun r => exists id, r = App.ClearedInterval id) cleared) /\
  (forall u,
     App.resultsImageUrl s = Some u -> App.isBlob (Some u) = true ->
     In (App.RevokedByCleanup u) (App.unmount s)).
Proof.
  intros s urls. subst s urls.
  destruct (renders_fold batches App.mounted) as (Hurl & Hrev & Hblob).
  cbv zeta in Hurl, Hrev, Hblob. fold (App.renders batches) in Hurl, Hrev, Hblob.
  cbn [App.mounted App.resultsImageUrl App.released App.updaterRevoked
       flat_map app] in Hurl, Hrev, Hblob.
  split; [exact Hurl|]. split; [|split; [|split]].
  - apply Hblob. intros u [[] | []].
  - rewrite Hrev.
    change (removelast (None :: App.imagesOf batches))
      with (removelast ([None] ++ App.imagesOf batches)).
    destruct (App.imagesOf batches) as [|o l]; [reflexivity|].
    rewrite removelast_app by discriminate. reflexivity.
  - intros u value Hu Hb Hdiff s'. subst s'.
    unfold App.render. cbn [fold_left App.update App.pollingInterval
                              App.resultsImageUrl App.released].
    rewrite Hdiff. cbn [andb App.resultsImageUrl App.released].
    split; [exact Hu|].
    unfold App.cleanup. rewrite Hu. unfold App.blobOf. rewrite Hb. cbn [map].
    eexists. split; [reflexivity|].
    destruct (App.pollingInterval (App.renders batches)) as [id|];
      [|constructor].
    destruct (id =? 0); repeat constructor. exists id. reflexivity.
  - intros u Hu Hb. unfold App.unmount, App.cleanup.
    apply in_or_app. right. rewrite Hu. unfold App.blobOf. rewrite Hb.
    left. reflexivity.
Qed.

Lemma string_length_append (a b : string) :
  String.length (a ++ b) = (String.length a + String.length b)%nat.
Proof.
  induction a as [|c a IH]; [reflexivity|]. simpl. rewrite IH. reflexivity.
Qed.

Lemma string_length_substring (s : string) :
  forall n, String.length (String.substring 0 n s) = Nat.min n (String.length s).
Proof.
  induction s as [|c s IH]; intros [|n]; try reflexivity.
  simpl. rewrite IH. reflexivity.
Qed.

Lemma string_prefix_append (a b : string) : String.prefix a (a ++ b) = true.
Proof.
  induction a as [|c a IH]; [destruct b; reflexivity|].
  simpl. destruct (ascii_dec c c) as [_|Hne]; [exact IH | contradiction].
Qed.

(** X17. The text snippet: none for a missing or empty text; a text of up
    to 320 characters is shown as it is; a longer one is cut to its first
    320 characters followed by three dots, 323 characters in all. The
    snippet is never longer than 323 characters. *)
Theorem extractedTextPreview_bounded (text : string) :
  (App.extractedTextPreview None = None) /\
  (App.extractedTextPreview (Some text) = None <-> text = EmptyString) /\
  (forall preview,
     App.extractedTextPreview (Some text) = Some preview ->
     (String.length preview <= 323)%nat /\
     ((String.length text <= 320)%nat -> preview = text) /\
     ((320 < String.length text)%nat ->
      preview = String.substring 0 320 text ++ "..." /\
      String.length preview = 323%nat /\
      String.prefix (String.substring 0 320 text) preview = true)).
Proof.
  split; [reflexivity|]. unfold App.extractedTextPreview, Upload.truthy. split.
  - destruct (String.eqb_spec text EmptyString) as [->|Hne]; cbn [negb].
    + split; reflexivity.
    + split; [discriminate | contradiction].
  - intros preview. destruct (String.eqb text EmptyString); cbn [negb];
      [discriminate|].
    destruct (Nat.ltb_spec 320 (String.length text)) as [Hlong|Hshort];
      intros [= <-].
    + assert (Hlen : String.length (String.substring 0 320 text ++ "...") = 323%nat).
      { rewrite string_length_append, string_length_substring.
        rewrite Nat.min_l by lia. reflexivity. }
      split; [lia|]. split; [lia|]. intros _.
      split; [reflexivity|]. split; [exact Hlen | apply string_prefix_append].
    + split; [lia|]. split; [reflexivity | lia].
Qed.

(** X17 at a text of 400 characters. *)
Lemma extractedTextPreview_bounded_witness :
  (String.length
     (String.substring 0 320 (String.concat EmptyString (repeat "abcdefghij" 40)) ++ "...")
   <= 323)%nat.
Proof.
  apply (proj1 (proj2 (proj2
           (extractedTextPreview_bounded
              (String.concat EmptyString (repeat "abcdefghij" 40))))
           _ eq_refl)).
Defined.

Lemma setAdd_In (types : list string) (t x : string) :
  In x (History.setAdd types t) <-> In x types \/ x = t.
Proof.
  unfold History.setAdd.
  destruct (existsb (String.eqb t) types) eqn:Hex.
  - apply existsb_exists in Hex. destruct Hex as (y & Hy & Heq).
    apply String.eqb_eq in Heq. subst y.
    split; [tauto|]. intros [H | ->]; assumption.
  - rewrite in_app_iff. simpl. split.
    + intros [H | [<- | []]]; tauto.
    + intros [H | ->]; tauto.
Qed.

Lemma setAdd_NoDup (types : list string) (t : string) :
  NoDup types -> NoDup (History.setAdd types t).
Proof.
  intros Hnd. unfold History.setAdd.
  destruct (existsb (String.eqb t) types) eqn:Hex; [exact Hnd|].
  apply NoDup_app; [exact Hnd | repeat constructor; intros [] |].
  intros x Hx [Heq | []]. subst x.
  assert (Hc : existsb (String.eqb t) types = true).
  { apply existsb_exists. exists t. split; [exact Hx | apply String.eqb_refl]. }
  congruence.
Qed.

Lemma documentTypes_fold (documents : list Doc.DocumentResponse) :
  forall types, NoDup types ->
    let result :=
      fold_left
        (fun types doc =>
           match History.documentType doc with
           | Some t => if Upload.truthy t then History.setAdd types t else types
           | None => types
           end)
        documents types in
    NoDup result /\
    forall t, In t result <->
      In t types \/
      (t <> EmptyString /\
       exists doc, In doc documents /\ History.documentType doc = Some t).
Proof.
  induction documents as [|d documents IH]; intros types Hnd; cbn [fold_left].
  - split; [exact Hnd|]. intros t. split; [tauto|].
    intros [H | (_ & doc & [] & _)]. exact H.
  - set (types' := match History.documentType d with
                   | Some t => if Upload.truthy t then History.setAdd types t else types
                   | None => types
                   end).
    assert (Hnd' : NoDup types').
    { unfold types'. destruct (History.documentType d) as [t|]; [|exact Hnd].
      destruct (Upload.truthy t); [apply setAdd_NoDup|]; exact Hnd. }
    assert (Hin' : forall t, In t types' <->
              In t types \/ (t <> EmptyString /\ History.documentType d = Some t)).
    { intros t. unfold types'.
      destruct (History.documentType d) as [t0|].
      - unfold Upload.truthy.
        destruct (String.eqb_spec t0 EmptyString) as [->|Hne]; cbn [negb].
        + split; [tauto|]. intros [H | [Hne [= <-]]]; [exact H | contradiction].
        + rewrite setAdd_In. split.
          * intros [H | ->]; [left; exact H | right; split; [exact Hne | reflexivity]].
          * intros [H | [_ [= <-]]]; [left; exact H | right; reflexivity].
      - split; [tauto|]. intros [H | [_ Hd]]; [exact H | discriminate]. }
    destruct (IH types' Hnd') as [Hres Hiff]. split; [exact Hres|].
    intros t. rewrite Hiff, Hin'. split.
    + intros [[H | [Hne Hd]] | (Hne & doc & Hdoc & Hd)].
      * left. exact H.
      * right. split; [exact Hne|]. exists d. split; [left; reflexivity | exact Hd].
      * right. split; [exact Hne|]. exists doc. split; [right; exact Hdoc | exact Hd].
    + intros [H | (Hne & doc & [<- | Hdoc] & Hd)].
      * left. left. exact H.
      * left. right. split; assumption.
      * right. split; [exact Hne|]. exists doc. split; assumption.
Qed.

Section HistoryFacts.

Variable toLowerCase : string -> string.

(** X18. The history filter: with an empty search and both filters on
    "all" every document is listed; whatever the settings, a listed
    document is one of the documents, has the chosen status unless the
    status filter is "all", and has the chosen type unless the type filter
    is "all" (so a document without data is never listed under a type). *)
Theorem filteredDocuments_sound (documents : list Doc.DocumentResponse)
  (searchQuery filterType filterStatus : string) :
  History.filteredDocuments toLowerCase documents EmptyString "all" "all"
  = documents /\
  (forall doc,
     In doc (History.filteredDocuments toLowerCase documents
               searchQuery filterType filterStatus) ->
     In doc documents /\
     (filterStatus <> "all" -> Doc.status doc = filterStatus) /\
     (filterType <> "all" ->
      exists data, Doc.data doc = Some data /\
                   Doc.document_type data = Some filterType)).
Proof.
  split.
  - unfold History.filteredDocuments.
    induction documents as [|d l IH]; [reflexivity|].
    cbn [filter]. unfold History.matches at 1. cbn [String.eqb orb andb].
    rewrite IH. reflexivity.
  - intros doc Hin. unfold History.filteredDocuments in Hin.
    apply filter_In in Hin. destruct Hin as [Hin Hm]. split; [exact Hin|].
    unfold History.matches in Hm. cbv zeta in Hm.
    apply andb_true_iff in Hm. destruct Hm as [Hm Hstatus].
    apply andb_true_iff in Hm. destruct Hm as [_ Htype]. split.
    + intros Hne. apply orb_true_iff in Hstatus.
      destruct Hstatus as [Hall | Heq].
      * apply String.eqb_eq in Hall. contradiction.
      * apply String.eqb_eq in Heq. exact Heq.
    + intros Hne. apply orb_true_iff in Htype.
      destruct Htype as [Hall | Heq].
      * apply String.eqb_eq in Hall. contradiction.
      * unfold History.isType, History.documentType in Heq.
        destruct (Doc.data doc) as [data|]; [|discriminate].
        exists data. split; [reflexivity|].
        destruct (Doc.document_type data) as [t|]; [|discriminate].
        apply String.eqb_eq in Heq. congruence.
Qed.

(** X19. The types offered by the type filter are exactly the non-empty
    document types that occur among the documents, each listed once; and
    choosing any of them (with an empty search and every status) lists at
    least one document. *)
Theorem documentTypes_complete (documents : list Doc.DocumentResponse) :
  NoDup (History.documentTypes documents) /\
  (forall t,
     In t (History.documentTypes documents) <->
     t <> EmptyString /\
     exists doc, In doc documents /\ History.documentType doc = Some t) /\
  (forall t,
     In t (History.documentTypes documents) ->
     History.filteredDocuments toLowerCase documents EmptyString t "all" <> []).
Proof.
  destruct (documentTypes_fold documents [] (NoDup_nil _)) as [Hnd Hiff].
  assert (Hin : forall t,
     In t (History.documentTypes documents) <->
     t <> EmptyString /\
     exists doc, In doc documents /\ History.documentType doc = Some t).
  { intros t. unfold History.documentTypes. rewrite Hiff. simpl. tauto. }
  split; [exact Hnd|]. split; [exact Hin|].
  intros t Ht Hempty. apply Hin in Ht. destruct Ht as (_ & doc & Hdoc & Htype).
  assert (Hlisted : In doc (History.filteredDocuments toLowerCase documents
                              EmptyString t "all")).
  { unfold History.filteredDocuments. apply filter_In. split; [exact Hdoc|].
    unfold History.matches. rewrite Htype. cbn [String.eqb orb andb History.isType].
    rewrite String.eqb_refl, orb_true_r. reflexivity. }
  rewrite Hempty in Hlisted. contradiction.
Qed.

End HistoryFacts.

(** * Segments with a length below 2 *)

Section ShortSegments.

Variable view : ArrayBuffer.

Lemma getUint16_big_endian (off : Z) :
  0 <= off -> off + 2 <= byteLength view ->
  getUint16 view off false
  = Some (256 * byteAt view off + byteAt view (off + 1)).
Proof.
  intros H0 H1. unfold getUint16, inRange.
  apply Z.leb_le in H0, H1. rewrite H0, H1. reflexivity.
Qed.

Lemma land_small (m : Z) : 0 <= m < 32768 -> Z.land m 0xff00 <> 0xff00.
Proof.
  intros Hm Heq.
  apply (f_equal (fun z => Z.testbit z 15)) in Heq.
  rewrite Z.land_spec in Heq.
  assert (Hbit : Z.testbit m 15 = false).
  { apply Z.testbit_false; [lia|]. rewrite Z.div_small by lia. reflexivity. }
  rewrite Hbit in Heq. discriminate.
Qed.

Lemma body_skip_app1 (offset exifLength signature : Z) :
  getUint16 view offset false = Some 0xffe1 ->
  getUint16 view (offset + 2) false = Some exifLength ->
  getUint32 view (offset + 4) false = Some signature ->
  signature <> 0x45786966 ->
  body view offset = Continue (offset + (exifLength + 2)).
Proof.
  intros Hm Hl Hs Hne.
  unfold body; cbv zeta; norm_offsets offset.
  rewrite Hm, Hl, Hs. change (0xffe1 =? 0xffe1) with true. cbv iota.
  apply Z.eqb_neq in Hne. rewrite Hne. cbn [negb].
  flow_facts. repeat flow_split; flow_facts; try lia.
  f_equal. lia.
Qed.

Lemma body_skip_segment (offset marker size : Z) :
  getUint16 view offset false = Some marker ->
  marker <> 0xffe1 -> Z.land marker 0xff00 = 0xff00 ->
  getUint16 view (offset + 2) false = Some size ->
  body view offset = Continue (offset + (size + 2)).
Proof.
  intros Hm Hne Hff Hs.
  unfold body; cbv zeta. rewrite Hm, Hs.
  apply Z.eqb_neq in Hne. rewrite Hne.
  apply Z.eqb_eq in Hff. rewrite Hff. cbn [negb].
  flow_facts. repeat flow_split; flow_facts; try lia.
  f_equal. lia.
Qed.

(** After a segment whose length field, at [offset + 2], holds 0 or 1, the
    next pass starts on bytes that are no marker. *)
Lemma short_length_breaks (offset len : Z) :
  getUint16 view (offset + 2) false = Some len -> 0 <= len <= 1 ->
  body view (offset + (len + 2)) = Break.
Proof.
  intros Hlen Hrange. apply body_no_marker.
  pose proof Hlen as Hin. apply getUint16_Some in Hin.
  rewrite getUint16_big_endian in Hlen by lia.
  apply Some_inj in Hlen.
  pose proof (byteAt_range view (offset + 2)).
  pose proof (byteAt_range view (offset + 2 + 1)).
  assert (Hcase : len = 0 \/ len = 1) by lia.
  destruct Hcase as [-> | ->].
  - right. exists 0. split; [|discriminate].
    replace (offset + (0 + 2)) with (offset + 2) by lia.
    rewrite getUint16_big_endian by lia. f_equal. lia.
  - destruct (Z.lt_ge_cases (byteLength view) (offset + (1 + 2) + 4))
      as [Hshort|Hlong]; [left; exact Hshort|].
    right. exists (256 * byteAt view (offset + (1 + 2))
                   + byteAt view (offset + (1 + 2) + 1)).
    split; [apply getUint16_big_endian; lia|].
    pose proof (byteAt_range view (offset + (1 + 2) + 1)).
    replace (offset + (1 + 2)) with (offset + 2 + 1) in * by lia.
    apply land_small. lia.
Qed.

End ShortSegments.

(** X20. A segment whose declared length is 0 or 1 ends the scan with -1:
    after a non-EXIF APP1 segment or any other 0xFFxx segment with such a
    length the next pass starts inside the length field, finds no marker
    there and stops. *)
Theorem short_segment_ends_scan (view : ArrayBuffer) (offset : Z)
  (Hsoi : getUint16 view 0 false = Some 0xffd8)
  (Hreach : reaches view offset) :
  (forall exifLength signature,
     getUint16 view offset false = Some 0xffe1 ->
     getUint16 view (offset + 2) false = Some exifLength ->
     getUint32 view (offset + 4) false = Some signature ->
     signature <> 0x45786966 -> exifLength <= 1 ->
     readExifOrientation view = Value (-1)) /\
  (forall marker size,
     getUint16 view offset false = Some marker ->
     marker <> 0xffe1 -> Z.land marker 0xff00 = 0xff00 ->
     getUint16 view (offset + 2) false = Some size -> size <= 1 ->
     readExifOrientation view = Value (-1)).
Proof.
  split.
  - intros exifLength signature Hm Hl Hs Hne Hshort.
    pose proof Hm as Hm'. apply getUint16_Some in Hm'.
    pose proof Hl as Hl'. apply getUint16_Some in Hl'.
    apply (reaches_break view (offset + (exifLength + 2)) Hsoi).
    + apply (reaches_next view offset); [exact Hreach | lia |].
      exact (body_skip_app1 view offset exifLength signature Hm Hl Hs Hne).
    + apply short_length_breaks; [exact Hl | lia].
  - intros marker size Hm Hne Hff Hs Hshort.
    pose proof Hm as Hm'. apply getUint16_Some in Hm'.
    pose proof Hs as Hs'. apply getUint16_Some in Hs'.
    apply (reaches_break view (offset + (size + 2)) Hsoi).
    + apply (reaches_next view offset); [exact Hreach | lia |].
      exact (body_skip_segment view offset marker size Hm Hne Hff Hs).
    + apply short_length_breaks; [exact Hs | lia].
Qed.

(** X20 at [zeroLengthJpeg]. *)
Lemma short_segment_ends_scan_witness :
  readExifOrientation zeroLengthJpeg = Value (-1).
Proof.
  apply (proj2 (short_segment_ends_scan zeroLengthJpeg 2 eq_refl
                  (reaches_start zeroLengthJpeg))
           0xfffe 0).
  - reflexivity.
  - discriminate.
  - reflexivity.
  - reflexivity.
  - lia.
Defined.
